(** * Echtzeitinfo: the departure pipeline and the refresh controller

    A shallow embedding of [src/api.py], [src/display.py] and the row
    truncation of [src/renderer.py], followed by the properties of the
    specification that were checked against it. *)

From Stdlib Require Import ZArith NArith List Bool Lia String Ascii.
From Stdlib Require Import DecimalString.
From Stdlib Require Import Sorted Permutation.
From Equations Require Import Equations.
Import ListNotations.

Local Open Scope Z_scope.
Set Warnings "-register-all".

(** ** Python values used by the program *)

Module Py.

(** A Python [str] is a sequence of Unicode code points; [len], slicing and
    comparison all work on code points. *)
Definition str := list N.

(** Literals are written as Rocq strings and read character by character. *)
Definition lit (s : string) : str := map N_of_ascii (list_ascii_of_string s).

Fixpoint str_eqb (a b : str) : bool :=
  match a, b with
  | [], [] => true
  | x :: a', y :: b' => (x =? y)%N && str_eqb a' b'
  | _, _ => false
  end.

(** [a < b] on [str]: lexicographic by code point, a proper prefix first. *)
Fixpoint str_ltb (a b : str) : bool :=
  match a, b with
  | _, [] => false
  | [], _ :: _ => true
  | x :: a', y :: b' =>
      if (x <? y)%N then true
      else if (x =? y)%N then str_ltb a' b' else false
  end.

(** [(a1, a2) < (b1, b2)] on tuples of two strings: the first components
    decide unless they are equal. *)
Definition pair_ltb (p q : str * str) : bool :=
  if str_eqb (fst p) (fst q) then str_ltb (snd p) (snd q)
  else str_ltb (fst p) (fst q).

(** The ASCII part of [str.upper], [str.title] and [str.strip].  They agree
    with Python on ASCII text and leave every other code point alone; the
    general theorems below do not depend on them. *)
Definition is_lower (c : N) : bool := ((97 <=? c) && (c <=? 122))%N.
Definition is_upper (c : N) : bool := ((65 <=? c) && (c <=? 90))%N.
Definition to_upper (c : N) : N := if is_lower c then (c - 32)%N else c.
Definition to_lower (c : N) : N := if is_upper c then (c + 32)%N else c.

Definition ascii_upper (s : str) : str := map to_upper s.

Fixpoint title_from (prev_cased : bool) (s : str) : str :=
  match s with
  | [] => []
  | c :: s' =>
      if is_lower c then
        (if prev_cased then c else to_upper c) :: title_from true s'
      else if is_upper c then
        (if prev_cased then to_lower c else c) :: title_from true s'
      else c :: title_from false s'
  end.

Definition ascii_title (s : str) : str := title_from false s.

Definition is_space (c : N) : bool :=
  (((9 <=? c) && (c <=? 13)) || ((28 <=? c) && (c <=? 32)))%N.

Fixpoint lstrip (s : str) : str :=
  match s with
  | c :: s' => if is_space c then lstrip s' else s
  | [] => []
  end.

Definition ascii_strip (s : str) : str := rev (lstrip (rev (lstrip s))).

End Py.

Import Py.

(** ** [src/api.py]: the fetcher *)

Module Api.

(** The value [json.loads] returns.  A dict is kept as its list of items,
    each key once; numbers are integers, as everywhere in the provider's
    schema. *)
Inductive json :=
| JNull
| JBool (b : bool)
| JNum (n : Z)
| JStr (s : str)
| JArr (items : list json)
| JObj (items : list (str * json)).

Inductive exn := AttributeError | TypeError | JSONDecodeError.

Inductive result (A : Type) :=
| Ok (a : A)
| Raise (e : exn).
Arguments Ok {A} a.
Arguments Raise {A} e.

Definition bind {A B} (r : result A) (k : A -> result B) : result B :=
  match r with
  | Ok a => k a
  | Raise e => Raise e
  end.

Notation "x <- r ;; k" := (bind r (fun x => k))
  (at level 61, r at next level, right associativity).

Fixpoint mapM {A B} (f : A -> result B) (l : list A) : result (list B) :=
  match l with
  | [] => Ok []
  | a :: l' => b <- f a ;; bs <- mapM f l' ;; Ok (b :: bs)
  end.

Fixpoint lookup (k : str) (items : list (str * json)) : option json :=
  match items with
  | [] => None
  | (k', v) :: items' => if str_eqb k k' then Some v else lookup k items'
  end.

(** [d.get(k, default)]: only a dict has the method. *)
Definition get (d : json) (k : string) (default : json) : result json :=
  match d with
  | JObj items =>
      Ok (match lookup (lit k) items with Some v => v | None => default end)
  | _ => Raise AttributeError
  end.

(** [for x in v]: a list gives its items, a dict its keys, a string its
    characters; nothing else is iterable. *)
Definition iter (v : json) : result (list json) :=
  match v with
  | JArr items => Ok items
  | JObj items => Ok (map (fun p => JStr (fst p)) items)
  | JStr s => Ok (map (fun c => JStr [c]) s)
  | _ => Raise TypeError
  end.

Definition truthy (v : json) : bool :=
  match v with
  | JNull => false
  | JBool b => b
  | JNum n => negb (n =? 0)
  | JStr s => negb (str_eqb s [])
  | JArr items => match items with [] => false | _ => true end
  | JObj items => match items with [] => false | _ => true end
  end.

Definition hashable (v : json) : bool :=
  match v with
  | JArr _ | JObj _ => false
  | _ => true
  end.

Definition is_none (v : json) : bool :=
  match v with JNull => true | _ => false end.

(** [a == b].  [True] and [False] compare as 1 and 0; two dicts are equal
    when they have the same keys with equal values, in any order. *)
Fixpoint py_eqb (a b : json) {struct a} : bool :=
  match a, b with
  | JNull, JNull => true
  | JBool x, JBool y => Bool.eqb x y
  | JBool x, JNum n => (if x then 1 else 0) =? n
  | JNum n, JBool y => n =? (if y then 1 else 0)
  | JNum m, JNum n => m =? n
  | JStr s, JStr t => str_eqb s t
  | JArr xs, JArr ys =>
      (fix all2 (xs : list json) (ys : list json) : bool :=
         match xs, ys with
         | [], [] => true
         | x :: xs', y :: ys' => py_eqb x y && all2 xs' ys'
         | _, _ => false
         end) xs ys
  | JObj xs, JObj ys =>
      (List.length xs =? List.length ys)%nat &&
      (fix all (xs : list (str * json)) : bool :=
         match xs with
         | [] => true
         | (k, x) :: xs' =>
             (fix find (ys : list (str * json)) : bool :=
                match ys with
                | [] => false
                | (k', y) :: ys' => if str_eqb k k' then py_eqb x y else find ys'
                end) ys && all xs'
         end) xs
  | _, _ => false
  end.

(** What the HTTP layer hands back: [requests.get] or [raise_for_status]
    raised, or a body arrived, which is JSON or not. *)
Inductive response :=
| RequestFailed
| Body (data : json)
| BodyNotJson.

(** The dicts [fetch_departures] builds.  [rbl] and [countdown] are
    whatever the payload held. *)
Module Fetched.
Record departure := { countdown : json; realtime : bool }.
Record line := {
  rbl : json;
  name : str;
  towards : str;
  departures : list departure
}.
End Fetched.

Section Fetcher.

(** [str.strip] and [str.title]. *)
Variables strip title : str -> str.

Definition strip_method (v : json) : result str :=
  match v with
  | JStr s => Ok (strip s)
  | _ => Raise AttributeError
  end.

(** One pass of the loop over [departure]: [None] when the entry is
    skipped for lack of a countdown. *)
Definition parse_departure (dep : json) : result (option Fetched.departure) :=
  dep_time <- get dep "departureTime" (JObj []) ;;
  countdown <- get dep_time "countdown" JNull ;;
  if is_none countdown then Ok None
  else
    planned <- get dep_time "timePlanned" JNull ;;
    real <- get dep_time "timeReal" JNull ;;
    Ok (Some {| Fetched.countdown := countdown;
                Fetched.realtime := negb (py_eqb planned real) |}).

Fixpoint somes {A} (l : list (option A)) : list A :=
  match l with
  | [] => []
  | Some a :: l' => a :: somes l'
  | None :: l' => somes l'
  end.

(** One pass of the loop over [lines]. *)
Definition parse_line (rbl : json) (line_data : json) : result Fetched.line :=
  name_value <- get line_data "name" (JStr (lit "?")) ;;
  line_name <- strip_method name_value ;;
  towards_value <- get line_data "towards" (JStr (lit "?")) ;;
  stripped <- strip_method towards_value ;;
  let towards := title stripped in
  departures_value <- get line_data "departures" (JObj []) ;;
  departure_value <- get departures_value "departure" (JArr []) ;;
  deps <- iter departure_value ;;
  parsed <- mapM parse_departure deps ;;
  Ok {| Fetched.rbl := rbl;
        Fetched.name := line_name;
        Fetched.towards := towards;
        Fetched.departures := somes parsed |}.

(** One pass of the loop over [monitors]. *)
Definition parse_monitor (monitor : json) : result (list Fetched.line) :=
  location_stop <- get monitor "locationStop" (JObj []) ;;
  properties <- get location_stop "properties" (JObj []) ;;
  attributes <- get properties "attributes" (JObj []) ;;
  rbl <- get attributes "rbl" JNull ;;
  lines_value <- get monitor "lines" (JArr []) ;;
  lines <- iter lines_value ;;
  mapM (parse_line rbl) lines.

(** The server-code check: it only logs, but looking the code up in
    [ERROR_CODES] needs it hashable. *)
Definition check_message (data : json) : result unit :=
  message <- get data "message" (JObj []) ;;
  server_code <- get message "serverCode" JNull ;;
  if truthy server_code && negb (py_eqb server_code (JNum 200)) then
    if hashable server_code then Ok tt else Raise TypeError
  else Ok tt.

Definition fetch_departures (resp : response) : result (list Fetched.line) :=
  match resp with
  | RequestFailed => Ok []
  | BodyNotJson => Raise JSONDecodeError
  | Body data =>
      _ <- check_message data ;;
      data_value <- get data "data" (JObj []) ;;
      monitors_value <- get data_value "monitors" (JArr []) ;;
      monitors <- iter monitors_value ;;
      per_monitor <- mapM parse_monitor monitors ;;
      Ok (List.concat per_monitor)
  end.

End Fetcher.

(** *** The aggregator *)

(** [list.sort(key=...)] and [sorted(..., key=...)] are stable: an element
    goes in front of the first one that is not smaller than it, so equal
    keys keep their order. *)
Section StableSort.
Context {A K : Type} (ltb : K -> K -> bool) (key : A -> K).

Fixpoint insert (x : A) (l : list A) : list A :=
  match l with
  | [] => [x]
  | y :: l' => if ltb (key y) (key x) then y :: insert x l' else x :: l
  end.

Definition sort_by (l : list A) : list A := fold_right insert [] l.

End StableSort.

(** The dicts [group_by_station] works on, with the types the docstring of
    [fetch_departures] gives them; [rbl] is [None] when the payload had no
    location data. *)
Record Departure := { countdown : Z; realtime : bool }.

Record Monitor := {
  rbl : option Z;
  name : str;
  towards : str;
  departures : list Departure
}.

(** One entry of [stations_config]. *)
Record Station := { station_name : str; rbls : list Z }.

(** The monitor dicts are shared objects: [seen] and the result hold
    references to the dicts of [monitors], and the merge assigns to their
    ["departures"] key.  The store is the list [monitors] itself and a
    reference is a position in it; the dicts of the list are distinct
    objects, as the ones [fetch_departures] builds are. *)
Definition store := list Monitor.
Definition ref := nat.

Fixpoint set_departures (s : store) (r : ref) (deps : list Departure) : store :=
  match s, r with
  | [], _ => []
  | m :: s', O =>
      {| rbl := rbl m; name := name m; towards := towards m;
         departures := deps |} :: s'
  | m :: s', S r' => m :: set_departures s' r' deps
  end.

(** [m.get("rbl") in station_rbls] *)
Definition rbl_in (r : option Z) (station_rbls : list Z) : bool :=
  match r with
  | Some n => existsb (Z.eqb n) station_rbls
  | None => false
  end.

(** The result at the level of references, one entry per appended dict. *)
Record View := { view_name : str; view_lines : list ref }.

(** The dicts the caller reads. *)
Record StationView := { sv_name : str; lines : list Monitor }.

Definition key_eqb (k k' : str * str) : bool :=
  str_eqb (fst k) (fst k') && str_eqb (snd k) (snd k').

(** The dict [seen], in insertion order. *)
Fixpoint seen_find (key : str * str) (seen : list ((str * str) * ref))
  : option ref :=
  match seen with
  | [] => None
  | (k, r) :: seen' => if key_eqb key k then Some r else seen_find key seen'
  end.

Definition sort_departures (deps : list Departure) : list Departure :=
  sort_by Z.ltb countdown deps.

Section Aggregator.

(** [str.upper] *)
Variable upper : str -> str.

Definition key_of (line : Monitor) : str * str :=
  (upper (name line), upper (towards line)).

(** The body of the loop over [lines]. *)
Definition merge_line (st : list ((str * str) * ref) * store) (line : ref)
  : list ((str * str) * ref) * store :=
  let (seen, s) := st in
  match nth_error s line with
  | None => st
  | Some line_dict =>
      let key := key_of line_dict in
      match seen_find key seen with
      | None => (seen ++ [(key, line)], s)
      | Some existing =>
          match nth_error s existing with
          | None => st
          | Some existing_dict =>
              let merged :=
                sort_departures
                  (departures existing_dict ++ departures line_dict) in
              (seen, set_departures s existing merged)
          end
      end
  end.

(** [[m for m in monitors if m.get("rbl") in station_rbls]] *)
Definition matching (s : store) (station_rbls : list Z) : list ref :=
  filter
    (fun r =>
       match nth_error s r with
       | Some m => rbl_in (rbl m) station_rbls
       | None => false
       end)
    (seq 0 (List.length s)).

Definition sort_key (s : store) (r : ref) : str * str :=
  match nth_error s r with
  | Some m => (name m, towards m)
  | None => ([], [])
  end.

(** The body of the loop over [stations_config]. *)
Definition group_station (s : store) (station : Station) : store * View :=
  let lines := matching s (rbls station) in
  let (seen, s') := fold_left merge_line lines ([], s) in
  (s',
   {| view_name := station_name station;
      view_lines := sort_by pair_ltb (sort_key s') (map snd seen) |}).

Fixpoint group_refs (s : store) (stations_config : list Station)
  : store * list View :=
  match stations_config with
  | [] => (s, [])
  | station :: rest =>
      let (s1, v) := group_station s station in
      let (s2, vs) := group_refs s1 rest in
      (s2, v :: vs)
  end.

Definition deref (s : store) (refs : list ref) : list Monitor :=
  flat_map
    (fun r => match nth_error s r with Some m => [m] | None => [] end) refs.

Definition resolve (s : store) (v : View) : StationView :=
  {| sv_name := view_name v; lines := deref s (view_lines v) |}.

(** The returned list as the caller sees it, after every station has been
    processed. *)
Definition group_by_station (monitors : list Monitor)
  (stations_config : list Station) : list StationView :=
  let (s, views) := group_refs monitors stations_config in
  map (resolve s) views.

End Aggregator.

(** Reading a fetched record at the documented types. *)
Definition typed_departure (d : Fetched.departure) : option Departure :=
  match Fetched.countdown d with
  | JNum n => Some {| countdown := n; realtime := Fetched.realtime d |}
  | _ => None
  end.

Fixpoint all_some {A} (l : list (option A)) : option (list A) :=
  match l with
  | [] => Some []
  | Some a :: l' =>
      match all_some l' with Some r => Some (a :: r) | None => None end
  | None :: _ => None
  end.

Definition typed_line (l : Fetched.line) : option Monitor :=
  match all_some (map typed_departure (Fetched.departures l)) with
  | None => None
  | Some deps =>
      match Fetched.rbl l with
      | JNum n =>
          Some {| rbl := Some n; name := Fetched.name l;
                  towards := Fetched.towards l; departures := deps |}
      | JNull =>
          Some {| rbl := None; name := Fetched.name l;
                  towards := Fetched.towards l; departures := deps |}
      | _ => None
      end
  end.

End Api.

(** ** [src/display.py]: the refresh controller *)

Module Display.

(** The hardware driver object; older driver versions lack [init_fast]. *)
Record Epd := { has_init_fast : bool }.

(** The keys of the display configuration read by [__init__]. *)
Record Config := {
  cfg_simulate : option bool;
  cfg_output_dir : option str;
  cfg_type : option str;
  cfg_full_refresh_every : option Z
}.

Record t := {
  _simulate : bool;
  _output_dir : str;
  _epd_type : str;
  _full_refresh_every : Z;
  _cycle_count : Z;
  _epd : option Epd
}.

Definition __init__ (config : Config) : t :=
  {| _simulate := match cfg_simulate config with Some b => b | None => false end;
     _output_dir :=
       match cfg_output_dir config with Some d => d | None => lit "output" end;
     _epd_type :=
       match cfg_type config with Some d => d | None => lit "epd7in5_V2" end;
     _full_refresh_every :=
       match cfg_full_refresh_every config with Some n => n | None => 5 end;
     _cycle_count := 0;
     _epd := None |}.

(** [init]: in hardware mode the driver that [_load_epd] returned is kept
    (an [ImportError] there ends the process before any frame). *)
Definition init (loaded : Epd) (self : t) : t :=
  if _simulate self then self
  else
    {| _simulate := _simulate self;
       _output_dir := _output_dir self;
       _epd_type := _epd_type self;
       _full_refresh_every := _full_refresh_every self;
       _cycle_count := _cycle_count self;
       _epd := Some loaded |}.

Inductive refresh := Full | Partial.

(** What [update] does to the outside world, in order. *)
Inductive event :=
| SaveImage
| LogSaved (cycle : Z) (refresh_type : refresh)
| LogFullRefresh (cycle : Z)
| LogFastRefresh (cycle : Z)
| EpdInit
| EpdClear
| EpdInitFast
| EpdDisplay.

Inductive exn := ZeroDivisionError | AttributeError.

(** The events that happened and the exception that ended the call, if any. *)
Definition outcome := (list event * option exn)%type.

Definition with_cycle_count (self : t) (n : Z) : t :=
  {| _simulate := _simulate self;
     _output_dir := _output_dir self;
     _epd_type := _epd_type self;
     _full_refresh_every := _full_refresh_every self;
     _cycle_count := n;
     _epd := _epd self |}.

(** [update]: the counter is incremented first, so it stays incremented
    when a later statement raises.  Python's [%] on integers takes the sign
    of the divisor, as [Z.modulo] does, and raises on a zero divisor. *)
Definition update (self : t) : t * outcome :=
  let self' := with_cycle_count self (_cycle_count self + 1) in
  if _full_refresh_every self' =? 0 then (self', ([], Some ZeroDivisionError))
  else
    let needs_full_refresh :=
      (_cycle_count self') mod (_full_refresh_every self') =? 0 in
    if _simulate self' then
      let refresh_type := if needs_full_refresh then Full else Partial in
      (self', ([SaveImage; LogSaved (_cycle_count self') refresh_type], None))
    else
      match _epd self' with
      | None =>
          (self',
           ([if needs_full_refresh then LogFullRefresh (_cycle_count self')
             else LogFastRefresh (_cycle_count self')],
            Some AttributeError))
      | Some epd =>
          if needs_full_refresh then
            (self',
             ([LogFullRefresh (_cycle_count self');
               EpdInit; EpdClear; EpdInit; EpdDisplay], None))
          else
            (self',
             ([LogFastRefresh (_cycle_count self');
               if has_init_fast epd then EpdInitFast else EpdInit;
               EpdDisplay], None))
      end.

(** The classification a call logged: [Some true] for a full refresh,
    [Some false] for a fast (partial) one, [None] when nothing was logged. *)
Definition classification (o : outcome) : option bool :=
  match fst o with
  | SaveImage :: LogSaved _ Full :: _ => Some true
  | SaveImage :: LogSaved _ Partial :: _ => Some false
  | LogFullRefresh _ :: _ => Some true
  | LogFastRefresh _ :: _ => Some false
  | _ => None
  end.

(** [n] successive frames: the final state and the classification of each
    cycle, first cycle first. *)
Fixpoint run (n : nat) (self : t) : t * list (option bool) :=
  match n with
  | O => (self, [])
  | S n' =>
      let (self', o) := update self in
      let (self'', cs) := run n' self' in
      (self'', classification o :: cs)
  end.

End Display.

(** ** [src/renderer.py]: the direction text of a line row *)

Module Renderer.

Definition WIDTH : Z := 800.
Definition MARGIN_X : Z := 20.
Definition COUNTDOWN_COLS : Z := 3.
Definition COUNTDOWN_WIDTH : Z := 50.

(** ["…"] *)
Definition ellipsis : str := [8230%N].

Section LineRow.

(** The font metrics come from the imaging library:
    [direction_width text] is [bbox[2] - bbox[0]] of
    [draw.textbbox((0, 0), text, font=FONT_DIRECTION)], and
    [line_bbox_right x text] is [bbox[2]] of
    [draw.textbbox((x, y), text, font=FONT_LINE)]. *)
Variable direction_width : str -> Z.
Variable line_bbox_right : Z -> str -> Z.

(** The [while len(direction) > 3] loop: drop the last character, stop with
    the ellipsis appended as soon as that fits. *)
Equations? truncate (max_dir_width : Z) (direction : str) : str
  by wf (List.length direction) lt :=
truncate max_dir_width direction with le_lt_dec (List.length direction) 3 => {
  | left _ => direction
  | right _ =>
      if direction_width (removelast direction ++ ellipsis) <=? max_dir_width
      then removelast direction ++ ellipsis
      else truncate max_dir_width (removelast direction) }.
Proof.
  destruct direction as [|c direction]; [simpl in *; lia|].
  pose proof (f_equal (@List.length N)
                (app_removelast_last (l := c :: direction) c
                   ltac:(discriminate))) as E.
  rewrite length_app in E. simpl in E |- *. lia.
Qed.

Definition max_dir_width (width : Z) (line_name : str) : Z :=
  let x := MARGIN_X + 16 in
  let x_after_line := line_bbox_right x line_name + 12 in
  width - MARGIN_X - (COUNTDOWN_COLS * COUNTDOWN_WIDTH) - x_after_line - 10.

(** The text [_draw_line_row] draws for the direction. *)
Definition direction_text (width : Z) (line : Api.Monitor) : str :=
  let direction := Api.towards line in
  if direction_width direction >? max_dir_width width (Api.name line)
  then truncate (max_dir_width width (Api.name line)) direction
  else direction.

End LineRow.

End Renderer.

(** ** Sample data *)

Module Sample.
Import Api.
Local Open Scope string_scope.

Definition dep (minutes : Z) : Departure :=
  {| countdown := minutes; realtime := false |}.

Definition karlsplatz : Station :=
  {| station_name := lit "Karlsplatz"; rbls := [100; 101] |}.

Definition u4_at_100 : Monitor :=
  {| rbl := Some 100; name := lit "U4"; towards := lit "heiligenstadt";
     departures := [dep 7] |}.

Definition u4_at_101 : Monitor :=
  {| rbl := Some 101; name := lit "u4"; towards := lit "Heiligenstadt";
     departures := [dep 2] |}.

(** One record whose departures arrive out of order, at a stop of
    Karlsplatz. *)
Definition u4_out_of_order : Monitor :=
  {| rbl := Some 100; name := lit "U4"; towards := lit "Heiligenstadt";
     departures := [dep 7; dep 2] |}.

(** The same two lines as the provider sends them, one monitor per stop. *)
Definition obj (items : list (string * json)) : json :=
  JObj (map (fun p => (lit (fst p), snd p)) items).

Definition monitor_payload (stop : Z) (line direction : string)
  (minutes : Z) : json :=
  obj [("locationStop",
        obj [("properties", obj [("attributes", obj [("rbl", JNum stop)])])]);
       ("lines",
        JArr [obj [("name", JStr (lit line));
                   ("towards", JStr (lit direction));
                   ("departures",
                    obj [("departure",
                          JArr [obj [("departureTime",
                                      obj [("countdown", JNum minutes)])]])])]])].

Definition karlsplatz_payload : json :=
  obj [("message", obj [("serverCode", JNum 200)]);
       ("data",
        obj [("monitors",
              JArr [monitor_payload 100 "U4" "heiligenstadt" 7;
                    monitor_payload 101 "u4" "Heiligenstadt" 2])])].

(** A departure with a planned time and no actual time. *)
Definition planned_only_time : list (str * json) :=
  [(lit "countdown", JNum 3);
   (lit "timePlanned", JStr (lit "2024-05-01T12:00:00.000+0200"))].

Definition planned_only : list (str * json) :=
  [(lit "departureTime", JObj planned_only_time)].

(** A payload with keys missing at every level: a monitor with nothing in
    it, and one without location whose first line is empty and whose
    second has an empty departure entry before a good one. *)
Definition sparse_payload : json :=
  obj [("data",
        obj [("monitors",
              JArr [obj [];
                    obj [("lines",
                          JArr [obj [];
                                obj [("name", JStr (lit " 13A "));
                                     ("departures",
                                      obj [("departure",
                                            JArr [obj [];
                                                  obj [("departureTime",
                                                        obj [("countdown",
                                                              JNum 4)])]])])]])]])])].

(** The Karlsplatz payload with a third monitor whose ["lines"] is null. *)
Definition null_lines_payload : json :=
  obj [("data",
        obj [("monitors",
              JArr [monitor_payload 100 "U4" "heiligenstadt" 7;
                    monitor_payload 101 "u4" "Heiligenstadt" 2;
                    obj [("lines", JNull)]])])].

(** A fixed-pitch font, ten pixels a character. *)
Definition fixed_pitch (text : str) : Z := 10 * Z.of_nat (List.length text).

Definition fixed_pitch_right (x : Z) (text : str) : Z := x + fixed_pitch text.

(** The same font with an ellipsis half as wide as the other characters. *)
Definition narrow_ellipsis (text : str) : Z :=
  fold_right (fun c w => (if (c =? 8230)%N then 5 else 10) + w) 0 text.

Definition narrow_ellipsis_right (x : Z) (text : str) : Z :=
  x + narrow_ellipsis text.

Definition u4_to_wien : Monitor :=
  {| rbl := Some 100; name := lit "U4"; towards := lit "Wien";
     departures := [dep 7] |}.

(** A display configured as [main] does by default. *)
Definition simulated : Display.Config :=
  {| Display.cfg_simulate := Some true;
     Display.cfg_output_dir := None;
     Display.cfg_type := None;
     Display.cfg_full_refresh_every := Some 5 |}.

(** A display on real hardware, with the default refresh settings. *)
Definition hardware : Display.Config :=
  {| Display.cfg_simulate := Some false;
     Display.cfg_output_dir := None;
     Display.cfg_type := None;
     Display.cfg_full_refresh_every := None |}.

End Sample.

(** ** Vocabulary of the properties *)

Module Spec.
Import Api.

(** Non-decreasing by [countdown]. *)
Definition ascending (deps : list Departure) : Prop :=
  StronglySorted (fun a b => countdown a <= countdown b) deps.

(** The display pair the lines of a station are sorted by. *)
Definition line_key (m : Monitor) : str * str := (name m, towards m).

(** A monitor dict without its departures: the part no merge changes. *)
Definition erase (m : Monitor) : Monitor :=
  {| rbl := rbl m; name := name m; towards := towards m; departures := [] |}.

Definition with_departures (m : Monitor) (deps : list Departure) : Monitor :=
  {| rbl := rbl m; name := name m; towards := towards m; departures := deps |}.

(** The departures a line ends with when the records [rest] are merged
    into it one after the other. *)
Definition merged_departures (first : list Departure) (rest : list Monitor)
  : list Departure :=
  fold_left (fun acc m => sort_departures (acc ++ departures m)) rest first.

(** Every fetched record read at the documented types, if all of them
    have them. *)
Definition typed_lines (fetched : list Fetched.line) : option (list Monitor) :=
  all_some (map typed_line fetched).

(** *** Payloads whose only defect is a missing key *)

(** [d] is a dict, and its key [k] is missing or holds a value that [p]
    accepts. *)
Definition absent_or (p : json -> bool) (k : string) (d : json) : bool :=
  match d with
  | JObj items =>
      match lookup (lit k) items with Some v => p v | None => true end
  | _ => false
  end.

Definition is_str (v : json) : bool :=
  match v with JStr _ => true | _ => false end.

Definition is_obj (v : json) : bool :=
  match v with JObj _ => true | _ => false end.

Definition array_of (p : json -> bool) (v : json) : bool :=
  match v with JArr items => forallb p items | _ => false end.

Definition departure_ok (dep : json) : bool :=
  absent_or is_obj "departureTime" dep.

Definition line_ok (line_data : json) : bool :=
  absent_or is_str "name" line_data &&
  absent_or is_str "towards" line_data &&
  absent_or (absent_or (array_of departure_ok) "departure") "departures"
    line_data.

Definition monitor_ok (monitor : json) : bool :=
  absent_or (absent_or (absent_or is_obj "attributes") "properties")
    "locationStop" monitor &&
  absent_or (array_of line_ok) "lines" monitor.

Definition payload_ok (data : json) : bool :=
  absent_or (absent_or hashable "serverCode") "message" data &&
  absent_or (absent_or (array_of monitor_ok) "monitors") "data" data.

(** The value under [k], or [default] when there is none. *)
Definition field (k : string) (default : json) (d : json) : json :=
  match d with
  | JObj items =>
      match lookup (lit k) items with Some v => v | None => default end
  | _ => default
  end.

Definition elements (v : json) : list json :=
  match v with JArr items => items | _ => [] end.

Definition text (v : json) : str :=
  match v with JStr s => s | _ => [] end.

Definition line_entries (monitor : json) : list json :=
  elements (field "lines" (JArr []) monitor).

Definition monitor_entries (data : json) : list json :=
  elements (field "monitors" (JArr []) (field "data" (JObj []) data)).

(** The reading of a payload that cannot fail: every missing key replaced
    by the default [fetch_departures] names for it. *)
Definition departure_with_defaults (dep : json) : option Fetched.departure :=
  let dep_time := field "departureTime" (JObj []) dep in
  let countdown := field "countdown" JNull dep_time in
  if is_none countdown then None
  else
    Some {| Fetched.countdown := countdown;
            Fetched.realtime :=
              negb (py_eqb (field "timePlanned" JNull dep_time)
                      (field "timeReal" JNull dep_time)) |}.

Section Defaults.
Variables strip title : str -> str.

Definition line_with_defaults (rbl : json) (line_data : json) : Fetched.line :=
  {| Fetched.rbl := rbl;
     Fetched.name := strip (text (field "name" (JStr (lit "?")) line_data));
     Fetched.towards :=
       title (strip (text (field "towards" (JStr (lit "?")) line_data)));
     Fetched.departures :=
       somes
         (map departure_with_defaults
            (elements
               (field "departure" (JArr [])
                  (field "departures" (JObj []) line_data)))) |}.

Definition monitor_with_defaults (monitor : json) : list Fetched.line :=
  map
    (line_with_defaults
       (field "rbl" JNull
          (field "attributes" (JObj [])
             (field "properties" (JObj [])
                (field "locationStop" (JObj []) monitor)))))
    (line_entries monitor).

Definition fetch_with_defaults (data : json) : list Fetched.line :=
  flat_map monitor_with_defaults (monitor_entries data).

End Defaults.

(** The countdown values a line entry offers, null where there is none. *)
Definition offered_countdowns (line_data : json) : list json :=
  map
    (fun dep =>
       field "countdown" JNull (field "departureTime" (JObj []) dep))
    (elements
       (field "departure" (JArr []) (field "departures" (JObj []) line_data))).

(** The merge key of a display pair. *)
Definition upper_pair (upper : str -> str) (p : str * str) : str * str :=
  (upper (fst p), upper (snd p)).

(** [seen] holds every key once, each with a reference to a dict of that
    key. *)
Definition seen_ok (upper : str -> str) (s : store)
  (seen : list ((str * str) * ref)) : Prop :=
  NoDup (map fst seen) /\
  Forall
    (fun kr =>
       exists m, nth_error s (snd kr) = Some m /\ key_of upper m = fst kr)
    seen.

(** What one station's entry of the result satisfies, read in store [s]. *)
Definition view_ok (upper : str -> str) (s : store) (station : Station)
  (v : View) : Prop :=
  view_name v = station_name station /\
  (forall r, In r (view_lines v) ->
     exists m, nth_error s r = Some m /\
               rbl_in (rbl m) (rbls station) = true) /\
  NoDup (map (fun r => upper_pair upper (sort_key s r)) (view_lines v)) /\
  StronglySorted
    (fun r r' => pair_ltb (sort_key s r') (sort_key s r) = false)
    (view_lines v) /\
  ((forall m, In m s -> rbl_in (rbl m) (rbls station) = false) ->
   view_lines v = []).

(** The merge key of the dict a reference points to. *)
Definition key_at (upper : str -> str) (s : store) (r : ref)
  : option (str * str) :=
  option_map (key_of upper) (nth_error s r).

(** While the lines [processed] have gone through the loop: the key of
    each is in [seen], and [seen] maps a key to the first of them that has
    it. *)
Definition first_inv (ka : ref -> option (str * str)) (processed : list ref)
  (seen : list ((str * str) * ref)) : Prop :=
  (forall r k, In r processed -> ka r = Some k -> In k (map fst seen)) /\
  (forall k r, In (k, r) seen ->
     ka r = Some k /\
     exists pre post,
       processed = pre ++ r :: post /\
       forall r', In r' pre -> ka r' <> Some k).

(** No earlier dict at a stop of the station has the key of a dict the
    entry refers to. *)
Definition first_ok (upper : str -> str) (s : store) (station : Station)
  (v : View) : Prop :=
  forall r, In r (view_lines v) ->
  forall r' m', (r' < r)%nat -> nth_error s r' = Some m' ->
    rbl_in (rbl m') (rbls station) = true ->
    key_at upper s r' <> key_at upper s r.

(** [l] shows the name and direction of the first record of [monitors], at
    a stop of the station, that has its key. *)
Definition first_seen (upper : str -> str) (monitors : list Monitor)
  (station : Station) (l : Monitor) : Prop :=
  exists r m,
    nth_error monitors r = Some m /\
    erase m = erase l /\
    rbl_in (rbl m) (rbls station) = true /\
    forall r' m', (r' < r)%nat -> nth_error monitors r' = Some m' ->
      rbl_in (rbl m') (rbls station) = true ->
      key_of upper m' <> key_of upper l.

End Spec.

(** ** [src/display.py]: the other operations *)

Module DisplayOps.
Import Display.

(** What [init], [clear] and [sleep] do to the outside world. *)
Inductive call :=
| MakeOutputDir
| LogInfo
| LogError
| HwInit
| HwClear
| HwSleep.

Inductive exn := ImportError.

Definition with_epd (self : t) (epd : option Epd) : t :=
  {| _simulate := _simulate self;
     _output_dir := _output_dir self;
     _epd_type := _epd_type self;
     _full_refresh_every := _full_refresh_every self;
     _cycle_count := _cycle_count self;
     _epd := epd |}.

(** [init].  [driver] is what importing the driver module gives: [None]
    when the module is not installed, in which case [_load_epd] logs and
    re-raises before anything is assigned. *)
Definition init (driver : option Epd) (self : t)
  : t * (list call * option exn) :=
  if _simulate self then (self, ([MakeOutputDir; LogInfo], None))
  else
    match driver with
    | None => (self, ([LogError], Some ImportError))
    | Some epd => (with_epd self (Some epd), ([HwInit; HwClear; LogInfo], None))
    end.

(** [clear] and [sleep] change no attribute; outside simulate mode they
    act only [if self._epd]. *)
Definition clear (self : t) : list call :=
  if _simulate self then [LogInfo]
  else
    match _epd self with
    | Some _ => [HwInit; HwClear]
    | None => []
    end.

Definition sleep (self : t) : list call :=
  if _simulate self then [LogInfo]
  else
    match _epd self with
    | Some _ => [HwSleep; LogInfo]
    | None => []
    end.

Definition is_hardware_call (c : call) : bool :=
  match c with
  | HwInit | HwClear | HwSleep => true
  | _ => false
  end.

Definition is_hardware_event (e : event) : bool :=
  match e with
  | EpdInit | EpdClear | EpdInitFast | EpdDisplay => true
  | _ => false
  end.

(** The number of cycles classified as full refresh. *)
Definition full_refreshes (cs : list (option bool)) : nat :=
  List.length
    (filter (fun c => match c with Some true => true | _ => false end) cs).

End DisplayOps.

(** ** [src/renderer.py]: the layout of a frame *)

Module Layout.
Import Api Renderer.

Definition HEIGHT : Z := 480.
Definition MARGIN_Y : Z := 15.
Definition STATION_HEIGHT : Z := 36.
Definition LINE_HEIGHT : Z := 34.
Definition SEPARATOR_GAP : Z := 12.

Inductive font :=
| FONT_STATION
| FONT_LINE
| FONT_DIRECTION
| FONT_COUNTDOWN
| FONT_TIMESTAMP
| FONT_ATTRIBUTION.

(** The calls made on the drawing object, all with [fill=0]: a frame is
    the sequence of them on a white canvas. *)
Inductive draw :=
| DrawLine (x1 y1 x2 y2 : Z)
| DrawText (x y : Z) (text : str) (f : font).

(** [str(minutes)] *)
Definition str_of_int (n : Z) : str :=
  lit (DecimalString.NilZero.string_of_int (Z.to_int n)).

Definition countdown_text (minutes : Z) : str :=
  str_of_int minutes ++ lit "'".

(** ["● " + name] *)
Definition station_header (station_name : str) : str :=
  [9679%N; 32%N] ++ station_name.

Definition attribution : str :=
  lit "Datenquelle: Stadt Wien " ++ [8212%N] ++ lit " data.wien.gv.at".

Section Render.

(** [text_width font text] is [bbox[2] - bbox[0]] of
    [draw.textbbox((0, 0), text, font=font)]; [line_bbox_right] is as in
    the row model above; [now] is the formatted clock reading. *)
Variable text_width : font -> str -> Z.
Variable line_bbox_right : Z -> str -> Z.
Variable now : str.

(** The loop over [enumerate(departures)], from column [j] on. *)
Fixpoint countdown_cells (width y : Z) (j : Z) (departures : list Departure)
  : list draw :=
  match departures with
  | [] => []
  | dep :: rest =>
      let minutes := countdown dep in
      let text := countdown_text minutes in
      let countdown_start_x :=
        width - MARGIN_X - COUNTDOWN_COLS * COUNTDOWN_WIDTH in
      let col_x := countdown_start_x + j * COUNTDOWN_WIDTH in
      let text_w := text_width FONT_COUNTDOWN text in
      DrawText (col_x + COUNTDOWN_WIDTH - text_w) y text FONT_COUNTDOWN
        :: countdown_cells width y (j + 1) rest
  end.

Definition _draw_line_row (y : Z) (line : Monitor) (width : Z) : list draw :=
  let x := MARGIN_X + 16 in
  let x_after_line := line_bbox_right x (name line) + 12 in
  [DrawText x y (name line) FONT_LINE;
   DrawText x_after_line (y + 2)
     (direction_text (text_width FONT_DIRECTION) line_bbox_right width line)
     FONT_DIRECTION]
  ++ countdown_cells width y 0
       (firstn (Z.to_nat COUNTDOWN_COLS) (departures line)).

(** The loop over the lines of a station: the calls and the [y] it ends
    with. *)
Fixpoint draw_lines (y : Z) (station_lines : list Monitor) (width : Z)
  : list draw * Z :=
  match station_lines with
  | [] => ([], y)
  | line :: rest =>
      let row := _draw_line_row y line width in
      let (rows, y') := draw_lines (y + LINE_HEIGHT) rest width in
      (row ++ rows, y')
  end.

(** The loop over [enumerate(stations_data)], from index [i] on. *)
Fixpoint draw_stations (i : nat) (y : Z) (stations_data : list StationView)
  (width : Z) : list draw * Z :=
  match stations_data with
  | [] => ([], y)
  | station :: rest =>
      let separator :=
        match i with
        | O => []
        | S _ =>
            [DrawLine MARGIN_X (y + SEPARATOR_GAP / 2)
               (width - MARGIN_X) (y + SEPARATOR_GAP / 2)]
        end in
      let y1 :=
        match i with
        | O => y
        | S _ => y + SEPARATOR_GAP / 2 + SEPARATOR_GAP / 2
        end in
      let header :=
        DrawText MARGIN_X y1 (station_header (sv_name station)) FONT_STATION in
      let (rows, y2) := draw_lines (y1 + STATION_HEIGHT) (lines station) width in
      let (others, y3) := draw_stations (S i) y2 rest width in
      (separator ++ header :: rows ++ others, y3)
  end.

Definition render_departures (stations_data : list StationView)
  (width height : Z) : list draw :=
  let (content, _) := draw_stations O MARGIN_Y stations_data width in
  let ts_width := text_width FONT_TIMESTAMP now in
  content ++
  [DrawText (width - MARGIN_X - ts_width) (height - 40) now FONT_TIMESTAMP;
   DrawText MARGIN_X (height - 22) attribution FONT_ATTRIBUTION].

End Render.

(** Where the header of station number [k] is drawn. *)
Definition header_y (stations_data : list StationView) (k : nat) : Z :=
  MARGIN_Y + (STATION_HEIGHT + SEPARATOR_GAP) * Z.of_nat k +
  LINE_HEIGHT * Z.of_nat (List.length (flat_map lines (firstn k stations_data))).

End Layout.

(** More sample payloads. *)
Module Payloads.
Import Api.
Local Open Scope string_scope.

(** The Karlsplatz data under the provider's code for an invalid stop. *)
Definition invalid_stop_message : list (str * json) :=
  [(lit "value", JStr (lit "RBL ungueltig")); (lit "serverCode", JNum 316)].

Definition karlsplatz_data : list (str * json) :=
  [(lit "data",
    Sample.obj
      [("monitors",
        JArr [Sample.monitor_payload 100 "U4" "heiligenstadt" 7;
              Sample.monitor_payload 101 "u4" "Heiligenstadt" 2])])].

(** A message whose server code is a list. *)
Definition list_code : list (str * json) :=
  [(lit "message", Sample.obj [("serverCode", JArr [JNum 316])])].

(** A line with a due departure, one without countdown and a later one. *)
Definition due_line : json :=
  Sample.obj
    [("name", JStr (lit "13A"));
     ("departures",
      Sample.obj
        [("departure",
          JArr [Sample.obj [("departureTime",
                             Sample.obj [("countdown", JNum 0)])];
                Sample.obj [("departureTime", Sample.obj [])];
                Sample.obj [("departureTime",
                             Sample.obj [("countdown", JNum 9)])]])])].

End Payloads.

(** A record with its direction put in title case, as the fetcher does
    on ASCII text. *)
Module Casing.
Import Api.

Definition retitled (m : Monitor) : Monitor :=
  {| rbl := rbl m; name := name m; towards := ascii_title (towards m);
     departures := departures m |}.

End Casing.

(** Stations without a stop in common, and a second station. *)
Module Network.
Import Api.

Definition no_common_stop (a b : Station) : Prop :=
  forall stop, In stop (rbls a) -> ~ In stop (rbls b).

Definition pilgramgasse : Station :=
  {| station_name := lit "Pilgramgasse"; rbls := [200; 201] |}.

Definition u4_at_200 : Monitor :=
  {| rbl := Some 200; name := lit "U4"; towards := lit "Huetteldorf";
     departures := [Sample.dep 3] |}.

End Network.

(** Kinds of drawing calls, for counting them. *)
Module Frame.
Import Api Layout.

Definition is_separator (d : draw) : bool :=
  match d with DrawLine _ _ _ _ => true | DrawText _ _ _ _ => false end.

Definition is_header (d : draw) : bool :=
  match d with DrawText _ _ _ FONT_STATION => true | _ => false end.

Definition is_line_name (d : draw) : bool :=
  match d with DrawText _ _ _ FONT_LINE => true | _ => false end.

Definition count (p : draw -> bool) (frame : list draw) : nat :=
  List.length (filter p frame).

(** Two stations, the first with two lines. *)
Definition two_stations : list StationView :=
  [{| sv_name := lit "Karlsplatz";
      lines := [Sample.u4_at_100; Sample.u4_to_wien] |};
   {| sv_name := lit "Pilgramgasse"; lines := [Sample.u4_at_101] |}].

Definition fixed_pitch_font (f : font) (text : str) : Z :=
  Sample.fixed_pitch text.

End Frame.

(** * Properties *)

(** ** The refresh controller *)

Section RefreshController.
Import Display.

Lemma update_cycle_count (self : t) :
  _cycle_count (fst (update self)) = _cycle_count self + 1.
Proof.
  unfold update; simpl.
  destruct (_full_refresh_every self =? 0); [reflexivity|].
  destruct (_simulate self); [reflexivity|].
  destruct (_epd self); [|reflexivity].
  destruct (_ mod _ =? 0); reflexivity.
Qed.

Lemma update_frame (self : t) :
  fst (update self) = with_cycle_count self (_cycle_count self + 1).
Proof.
  unfold update; simpl.
  destruct (_full_refresh_every self =? 0); [reflexivity|].
  destruct (_simulate self); [reflexivity|].
  destruct (_epd self); [|reflexivity].
  destruct (_ mod _ =? 0); reflexivity.
Qed.

Lemma update_classification (self : t) :
  _full_refresh_every self <> 0 ->
  classification (snd (update self)) =
  Some ((_cycle_count self + 1) mod (_full_refresh_every self) =? 0).
Proof.
  intros Hfre. unfold update; simpl.
  destruct (Z.eqb_spec (_full_refresh_every self) 0) as [E|_]; [contradiction|].
  destruct (_simulate self).
  - destruct (_ mod _ =? 0); reflexivity.
  - destruct (_epd self); destruct (_ mod _ =? 0); reflexivity.
Qed.

(** C8: every frame adds one to the cycle counter, and the cycle is logged
    as a full refresh exactly when the incremented counter is divisible by
    [full_refresh_every], as a fast one otherwise; with
    [full_refresh_every = 5] the first fifteen cycles are fast four times,
    then full, three times over. *)
Theorem refresh_classification (self : t) (config : Config) (loaded : Epd) :
  _full_refresh_every self <> 0 ->
  _full_refresh_every (__init__ config) = 5 ->
  _cycle_count (fst (update self)) = _cycle_count self + 1 /\
  (exists full,
     classification (snd (update self)) = Some full /\
     (full = true <->
      (_full_refresh_every self | _cycle_count (fst (update self))))) /\
  snd (run 15 (init loaded (__init__ config))) =
  map Some
    [false; false; false; false; true;
     false; false; false; false; true;
     false; false; false; false; true].
Proof.
  intros Hfre H5. split; [apply update_cycle_count|]. split.
  - exists ((_cycle_count self + 1) mod (_full_refresh_every self) =? 0).
    split; [now apply update_classification|].
    rewrite update_cycle_count, Z.eqb_eq.
    now apply Z.mod_divide.
  - destruct config as [sim dir ty fre]. unfold __init__ in *. simpl in H5.
    destruct fre as [n|]; simpl in H5; [subst n|];
      destruct sim as [[|]|]; destruct loaded as [[|]]; reflexivity.
Qed.

Lemma refresh_classification_witness :
  _full_refresh_every (__init__ Sample.simulated) <> 0 /\
  _full_refresh_every (__init__ Sample.simulated) = 5 /\
  _cycle_count (fst (update (__init__ Sample.simulated))) = 0 + 1 /\
  snd (run 15 (init {| has_init_fast := true |} (__init__ Sample.simulated))) =
  map Some
    [false; false; false; false; true;
     false; false; false; false; true;
     false; false; false; false; true].
Proof.
  assert (H0 : _full_refresh_every (__init__ Sample.simulated) <> 0)
    by (vm_compute; discriminate).
  assert (H5 : _full_refresh_every (__init__ Sample.simulated) = 5)
    by reflexivity.
  destruct (refresh_classification (__init__ Sample.simulated)
              Sample.simulated {| has_init_fast := true |} H0 H5)
    as (Hc & _ & Hrun).
  split; [exact H0|]. split; [exact H5|]. split; [exact Hc|exact Hrun].
Defined.

(** C10: in simulate mode a call to [update] adds exactly one to
    [_cycle_count] and changes no other field; it saves the image and logs
    the classification of the incremented counter, and touches no
    hardware. *)
Theorem update_simulate_frame (self : t) :
  _simulate self = true ->
  _cycle_count (fst (update self)) = _cycle_count self + 1 /\
  _simulate (fst (update self)) = _simulate self /\
  _output_dir (fst (update self)) = _output_dir self /\
  _epd_type (fst (update self)) = _epd_type self /\
  _full_refresh_every (fst (update self)) = _full_refresh_every self /\
  _epd (fst (update self)) = _epd self /\
  (_full_refresh_every self <> 0 ->
   snd (update self) =
   ([SaveImage;
     LogSaved (_cycle_count self + 1)
       (if (_cycle_count self + 1) mod (_full_refresh_every self) =? 0
        then Full else Partial)], None)).
Proof.
  intros Hsim. rewrite update_frame. simpl.
  repeat split; try reflexivity.
  intros Hfre. unfold update; simpl. rewrite Hsim.
  destruct (Z.eqb_spec (_full_refresh_every self) 0); [contradiction|].
  reflexivity.
Qed.

Lemma update_simulate_frame_witness :
  _simulate (__init__ Sample.simulated) = true /\
  _cycle_count (fst (update (__init__ Sample.simulated))) = 0 + 1.
Proof.
  split; [reflexivity|].
  exact (proj1 (update_simulate_frame (__init__ Sample.simulated) eq_refl)).
Defined.

End RefreshController.

(** ** Strings and their order *)

Lemma str_eqb_eq (a b : str) : str_eqb a b = true <-> a = b.
Proof.
  revert b; induction a as [|x a IH]; intros [|y b]; simpl;
    try (split; [discriminate|discriminate]); [tauto|].
  rewrite andb_true_iff, N.eqb_eq, IH.
  split; [intros [-> ->]; reflexivity|intros E; inversion E; auto].
Qed.

Lemma str_eqb_refl (a : str) : str_eqb a a = true.
Proof. now apply str_eqb_eq. Qed.

Lemma str_ltb_irrefl (a : str) : str_ltb a a = false.
Proof.
  induction a as [|x a IH]; simpl; [reflexivity|].
  now rewrite N.ltb_irrefl, N.eqb_refl.
Qed.

Lemma str_ltb_trans (a b c : str) :
  str_ltb a b = true -> str_ltb b c = true -> str_ltb a c = true.
Proof.
  revert b c; induction a as [|x a IH]; intros [|y b] [|z c]; simpl;
    try discriminate; try reflexivity.
  destruct (N.ltb_spec x y), (N.ltb_spec y z), (N.ltb_spec x z);
    try reflexivity; try lia;
    destruct (N.eqb_spec x y), (N.eqb_spec y z), (N.eqb_spec x z);
    try discriminate; try lia.
  apply IH.
Qed.

Lemma str_ltb_total (a b : str) :
  a <> b -> str_ltb a b = true \/ str_ltb b a = true.
Proof.
  revert b; induction a as [|x a IH]; intros [|y b] Hne; simpl; auto.
  destruct (N.ltb_spec x y); [auto|].
  destruct (N.ltb_spec y x); [auto|].
  assert (x = y) by lia. subst y. rewrite N.eqb_refl.
  apply IH. congruence.
Qed.

Lemma pair_ltb_irrefl (p : str * str) : pair_ltb p p = false.
Proof. unfold pair_ltb. rewrite str_eqb_refl. apply str_ltb_irrefl. Qed.

Lemma pair_ltb_trans (p q r : str * str) :
  pair_ltb p q = true -> pair_ltb q r = true -> pair_ltb p r = true.
Proof.
  destruct p as [p1 p2], q as [q1 q2], r as [r1 r2]. unfold pair_ltb; simpl.
  destruct (str_eqb p1 q1) eqn:E1; destruct (str_eqb q1 r1) eqn:E2.
  - apply str_eqb_eq in E1, E2; subst q1 r1.
    rewrite str_eqb_refl. apply str_ltb_trans.
  - apply str_eqb_eq in E1; subst q1. rewrite E2. auto.
  - apply str_eqb_eq in E2; subst r1. rewrite E1. auto.
  - intros H1 H2. pose proof (str_ltb_trans _ _ _ H1 H2) as H3.
    destruct (str_eqb p1 r1) eqn:E3; [|exact H3].
    apply str_eqb_eq in E3; subst r1. now rewrite str_ltb_irrefl in H3.
Qed.

Lemma pair_ltb_total (p q : str * str) :
  p <> q -> pair_ltb p q = true \/ pair_ltb q p = true.
Proof.
  destruct p as [p1 p2], q as [q1 q2]. unfold pair_ltb; simpl. intros Hne.
  destruct (str_eqb p1 q1) eqn:E1.
  - apply str_eqb_eq in E1; subst q1. rewrite str_eqb_refl.
    apply str_ltb_total. congruence.
  - assert (str_eqb q1 p1 = false) as ->.
    { destruct (str_eqb q1 p1) eqn:E; [|reflexivity].
      apply str_eqb_eq in E; subst q1. now rewrite str_eqb_refl in E1. }
    apply str_ltb_total. intros ->. now rewrite str_eqb_refl in E1.
Qed.

(** ** The stable sort *)

Section SortFacts.
Context {A K : Type} (ltb : K -> K -> bool) (key : A -> K).
Hypothesis ltb_irrefl : forall a, ltb a a = false.
Hypothesis ltb_trans :
  forall a b c, ltb a b = true -> ltb b c = true -> ltb a c = true.
Hypothesis ltb_total : forall a b, a <> b -> ltb a b = true \/ ltb b a = true.
Hypothesis key_dec : forall a b : K, a = b \/ a <> b.

Let le (x y : A) : Prop := ltb (key y) (key x) = false.
Let lt (x y : A) : Prop := ltb (key x) (key y) = true.

Lemma ltb_asym a b : ltb a b = true -> ltb b a = false.
Proof.
  intros H. destruct (ltb b a) eqn:E; [|reflexivity].
  pose proof (ltb_trans _ _ _ H E) as C. now rewrite ltb_irrefl in C.
Qed.

Lemma le_cases x y : le x y <-> key x = key y \/ lt x y.
Proof.
  unfold le, lt. split.
  - intros H. destruct (key_dec (key x) (key y)) as [E|E]; [auto|].
    destruct (ltb_total _ _ E) as [H'|H']; [auto|congruence].
  - intros [E|H]; [rewrite E; apply ltb_irrefl|now apply ltb_asym].
Qed.

Lemma le_trans x y z : le x y -> le y z -> le x z.
Proof.
  rewrite !le_cases. unfold lt.
  intros [E1|H1] [E2|H2].
  - left; congruence.
  - right; now rewrite E1.
  - right; now rewrite <- E2.
  - right; eauto.
Qed.

Lemma insert_perm x l : Permutation (x :: l) (Api.insert ltb key x l).
Proof.
  induction l as [|y l IH]; simpl; [reflexivity|].
  destruct (ltb (key y) (key x)); [|reflexivity].
  rewrite perm_swap. now constructor.
Qed.

Lemma sort_by_perm l : Permutation l (Api.sort_by ltb key l).
Proof.
  induction l as [|x l IH]; simpl; [reflexivity|].
  rewrite <- insert_perm. now constructor.
Qed.

Lemma insert_sorted x l :
  StronglySorted le l -> StronglySorted le (Api.insert ltb key x l).
Proof.
  induction 1 as [|y l Hs IH Hall]; simpl.
  - repeat constructor.
  - destruct (ltb (key y) (key x)) eqn:E.
    + constructor; [exact IH|].
      rewrite <- insert_perm. constructor; [|exact Hall].
      unfold le. now apply ltb_asym.
    + constructor; [now constructor|].
      constructor; [exact E|].
      eapply Forall_impl; [|exact Hall].
      intros z Hz. eapply le_trans; [exact E|exact Hz].
Qed.

Lemma sort_by_sorted l : StronglySorted le (Api.sort_by ltb key l).
Proof.
  induction l as [|x l IH]; simpl; [constructor|now apply insert_sorted].
Qed.

(** A list already in order is left as it is. *)
Lemma sort_by_id l : StronglySorted le l -> Api.sort_by ltb key l = l.
Proof.
  induction 1 as [|x l Hs IH Hall]; simpl; [reflexivity|].
  rewrite IH. destruct Hall as [|y l Hy _]; simpl; [reflexivity|].
  unfold le in Hy. now rewrite Hy.
Qed.

Lemma sorted_nodup_strict l :
  StronglySorted le l -> NoDup (map key l) -> StronglySorted lt l.
Proof.
  induction 1 as [|x l Hs IH Hall]; simpl; intros Hnd; [constructor|].
  inversion Hnd as [|? ? Hnin Hnd']; subst.
  constructor; [auto|].
  rewrite Forall_forall in Hall |- *. intros y Hy.
  destruct (proj1 (le_cases x y) (Hall y Hy)) as [E|H]; [|exact H].
  exfalso. apply Hnin. rewrite E. now apply in_map.
Qed.

End SortFacts.

(** ** The shared store *)

Section StoreFacts.
Import Api Spec.

Lemma nth_error_set_departures_same s r deps :
  nth_error (set_departures s r deps) r =
  option_map (fun m => with_departures m deps) (nth_error s r).
Proof.
  revert r; induction s as [|m s IH]; intros [|r]; simpl; auto.
Qed.

Lemma nth_error_set_departures_other s r r' deps :
  r' <> r -> nth_error (set_departures s r deps) r' = nth_error s r'.
Proof.
  revert r r'; induction s as [|m s IH]; intros [|r] [|r'] H; simpl; auto;
    try congruence.
Qed.

Lemma erase_set_departures s r deps :
  map erase (set_departures s r deps) = map erase s.
Proof.
  revert r; induction s as [|m s IH]; intros [|r]; simpl; auto.
  now rewrite IH.
Qed.

Lemma erase_nth_error s s' r m :
  map erase s' = map erase s -> nth_error s r = Some m ->
  exists m', nth_error s' r = Some m' /\ erase m' = erase m.
Proof.
  intros E H.
  pose proof (map_nth_error erase _ _ H) as H'. rewrite <- E in H'.
  rewrite nth_error_map in H'.
  destruct (nth_error s' r) as [m'|]; simpl in H'; [|discriminate].
  exists m'. split; [reflexivity|congruence].
Qed.

Lemma erase_line_key m m' : erase m' = erase m -> line_key m' = line_key m.
Proof. unfold erase, line_key. intros E. now inversion E. Qed.

Lemma erase_rbl m m' : erase m' = erase m -> rbl m' = rbl m.
Proof. unfold erase. intros E. now inversion E. Qed.

Lemma sort_key_erase s s' r :
  map erase s' = map erase s -> sort_key s' r = sort_key s r.
Proof.
  intros E. unfold sort_key.
  destruct (nth_error s r) as [m|] eqn:H.
  - destruct (erase_nth_error _ _ _ _ E H) as (m' & -> & Em).
    now inversion Em.
  - destruct (nth_error s' r) as [m'|] eqn:H'; [|reflexivity].
    destruct (erase_nth_error _ _ _ _ (eq_sym E) H') as (m0 & H0 & _).
    congruence.
Qed.

Lemma in_deref s refs m :
  In m (deref s refs) <-> exists r, In r refs /\ nth_error s r = Some m.
Proof.
  unfold deref. rewrite in_flat_map. split.
  - intros (r & Hr & Hm). exists r. split; [exact Hr|].
    destruct (nth_error s r); simpl in Hm; [|contradiction].
    destruct Hm as [->|[]]. reflexivity.
  - intros (r & Hr & Hm). exists r. split; [exact Hr|].
    rewrite Hm. now left.
Qed.

Lemma deref_map {B} (g : Monitor -> B) (g' : ref -> B) s refs :
  (forall r, In r refs -> exists m, nth_error s r = Some m /\ g m = g' r) ->
  map g (deref s refs) = map g' refs.
Proof.
  induction refs as [|r refs IH]; intros H; simpl; [reflexivity|].
  destruct (H r (or_introl eq_refl)) as (m & -> & E). simpl.
  rewrite E, IH; [reflexivity|]. intros r' Hr'. apply H. now right.
Qed.

End StoreFacts.

(** ** The aggregator: what every station's entry satisfies *)

Section AggregatorFacts.
Import Api Spec.
Variable upper : str -> str.

Lemma key_eqb_eq (k k' : str * str) : key_eqb k k' = true <-> k = k'.
Proof.
  destruct k as [a b], k' as [a' b']. unfold key_eqb; simpl.
  rewrite andb_true_iff, !str_eqb_eq.
  split; [intros [-> ->]; reflexivity|intros E; inversion E; auto].
Qed.

Lemma pair_dec (p q : str * str) : p = q \/ p <> q.
Proof.
  destruct (key_eqb p q) eqn:E.
  - left. now apply key_eqb_eq.
  - right. intros H. apply key_eqb_eq in H. congruence.
Qed.

Lemma seen_find_none key seen :
  seen_find key seen = None -> ~ In key (map fst seen).
Proof.
  induction seen as [|[k r] seen IH]; simpl; [tauto|].
  destruct (key_eqb key k) eqn:E; [discriminate|].
  intros H [Hk|Hin]; [|now apply IH].
  subst k. assert (key_eqb key key = true) by now apply key_eqb_eq.
  congruence.
Qed.

Lemma seen_find_some key seen r :
  seen_find key seen = Some r -> In (key, r) seen.
Proof.
  induction seen as [|[k r'] seen IH]; simpl; [discriminate|].
  destruct (key_eqb key k) eqn:E.
  - apply key_eqb_eq in E. subst k. intros H; inversion H. now left.
  - intros H. right. now apply IH.
Qed.

Lemma key_of_erase m m' : erase m' = erase m -> key_of upper m' = key_of upper m.
Proof. unfold erase, key_of. intros E. now inversion E. Qed.

Lemma key_of_sort_key s r m :
  nth_error s r = Some m -> upper_pair upper (sort_key s r) = key_of upper m.
Proof. intros H. unfold sort_key. now rewrite H. Qed.

Lemma seen_ok_erase s s' seen :
  map erase s' = map erase s -> seen_ok upper s seen -> seen_ok upper s' seen.
Proof.
  intros E [Hnd Hall]. split; [exact Hnd|].
  eapply Forall_impl; [|exact Hall].
  intros [k r] (m & Hm & Hk); simpl in *.
  destruct (erase_nth_error _ _ _ _ E Hm) as (m' & Hm' & Em).
  exists m'. split; [exact Hm'|]. now rewrite (key_of_erase _ _ Em).
Qed.

Lemma merge_line_spec seen s line seen' s' :
  merge_line upper (seen, s) line = (seen', s') ->
  seen_ok upper s seen ->
  map erase s' = map erase s /\
  seen_ok upper s' seen' /\
  incl (map snd seen') (line :: map snd seen).
Proof.
  unfold merge_line. intros H Hok.
  destruct (nth_error s line) as [line_dict|] eqn:Hl.
  2:{ inversion H; subst. repeat split; try apply Hok. now apply incl_tl. }
  destruct (seen_find (key_of upper line_dict) seen) as [existing|] eqn:Hf.
  - destruct (nth_error s existing) as [existing_dict|] eqn:He;
      inversion H; subst; clear H.
    + assert (E : map erase
                    (set_departures s existing
                       (sort_departures
                          (departures existing_dict ++ departures line_dict)))
                  = map erase s) by apply erase_set_departures.
      split; [exact E|]. split; [now apply (seen_ok_erase s)|].
      now apply incl_tl.
    + repeat split; try apply Hok. now apply incl_tl.
  - inversion H; subst; clear H. split; [reflexivity|].
    destruct Hok as [Hnd Hall]. split; [split|].
    + rewrite map_app. simpl.
      apply (Permutation_NoDup (l := key_of upper line_dict :: map fst seen)).
      * now apply Permutation_cons_append.
      * constructor; [now apply seen_find_none|exact Hnd].
    + apply Forall_app. split; [exact Hall|].
      constructor; [|constructor]. simpl. now exists line_dict.
    + rewrite map_app. simpl. intros r Hr.
      apply in_app_or in Hr. destruct Hr as [Hr|[<-|[]]];
        [now right|now left].
Qed.

Lemma fold_merge_spec lines seen s seen' s' :
  fold_left (merge_line upper) lines (seen, s) = (seen', s') ->
  seen_ok upper s seen ->
  map erase s' = map erase s /\
  seen_ok upper s' seen' /\
  incl (map snd seen') (lines ++ map snd seen).
Proof.
  revert seen s; induction lines as [|line lines IH]; cbn [fold_left app];
    intros seen s H Hok.
  - inversion H; subst. repeat split; try apply Hok. apply incl_refl.
  - destruct (merge_line upper (seen, s) line) as [seen1 s1] eqn:H1.
    destruct (merge_line_spec _ _ _ _ _ H1 Hok) as (E1 & Hok1 & Hin1).
    destruct (IH _ _ H Hok1) as (E2 & Hok2 & Hin2).
    split; [congruence|]. split; [exact Hok2|].
    intros r Hr. apply Hin2 in Hr. apply in_app_or in Hr.
    destruct Hr as [Hr|Hr]; [right; apply in_or_app; now left|].
    apply Hin1 in Hr. destruct Hr as [<-|Hr]; [now left|].
    right. apply in_or_app. now right.
Qed.

Lemma in_matching s station_rbls r :
  In r (matching s station_rbls) <->
  exists m, nth_error s r = Some m /\ rbl_in (rbl m) station_rbls = true.
Proof.
  unfold matching. rewrite filter_In, in_seq. split.
  - intros [_ H]. destruct (nth_error s r) as [m|]; [|discriminate].
    now exists m.
  - intros (m & Hm & Hr). rewrite Hm. split; [|exact Hr].
    assert (r < List.length s)%nat by (apply nth_error_Some; congruence).
    lia.
Qed.

Lemma matching_nil s station_rbls :
  (forall m, In m s -> rbl_in (rbl m) station_rbls = false) ->
  matching s station_rbls = [].
Proof.
  intros H. destruct (matching s station_rbls) as [|r l] eqn:E; [reflexivity|].
  assert (Hr : In r (matching s station_rbls)) by (rewrite E; now left).
  apply in_matching in Hr. destruct Hr as (m & Hm & Hr).
  apply nth_error_In in Hm. rewrite (H m Hm) in Hr. discriminate.
Qed.

Lemma view_ok_erase s s' station v :
  map erase s' = map erase s -> view_ok upper s station v ->
  view_ok upper s' station v.
Proof.
  intros E (Hn & Hr & Hnd & Hs & Hnil).
  split; [exact Hn|]. split; [|split; [|split]].
  - intros r Hin. destruct (Hr r Hin) as (m & Hm & Hrbl).
    destruct (erase_nth_error _ _ _ _ E Hm) as (m' & Hm' & Em).
    exists m'. split; [exact Hm'|]. now rewrite (erase_rbl _ _ Em).
  - erewrite map_ext; [exact Hnd|].
    intros r. simpl. now rewrite (sort_key_erase _ _ _ E).
  - eapply StronglySorted_ind with (P := fun l =>
      StronglySorted
        (fun r r' => pair_ltb (sort_key s' r') (sort_key s' r) = false) l);
      [constructor| |exact Hs].
    intros r l _ IH Hall. constructor; [exact IH|].
    eapply Forall_impl; [|exact Hall]. intros r'. simpl.
    now rewrite !(sort_key_erase _ _ _ E).
  - intros Hno. apply Hnil. intros m Hm.
    apply In_nth_error in Hm. destruct Hm as [r Hm].
    destruct (erase_nth_error _ _ _ _ E Hm) as (m' & Hm' & Em).
    rewrite <- (erase_rbl _ _ Em). apply Hno. eapply nth_error_In; eauto.
Qed.

Lemma group_station_spec s station s' v :
  group_station upper s station = (s', v) ->
  map erase s' = map erase s /\ view_ok upper s' station v.
Proof.
  unfold group_station. intros H.
  destruct (fold_left (merge_line upper) (matching s (rbls station)) ([], s))
    as [seen s1] eqn:Hfold.
  inversion H; subst s1 v; clear H.
  assert (Hok0 : seen_ok upper s []) by (split; constructor).
  destruct (fold_merge_spec _ _ _ _ _ Hfold Hok0) as (E & [Hnd Hall] & Hin).
  split; [exact E|].
  pose proof (sort_by_perm pair_ltb (sort_key s') (map snd seen)) as Hperm.
  split; [reflexivity|]. simpl. split; [|split; [|split]].
  - intros r Hr.
    apply (Permutation_in _ (Permutation_sym Hperm)) in Hr.
    apply Hin in Hr. rewrite app_nil_r in Hr.
    apply in_matching in Hr. destruct Hr as (m & Hm & Hrbl).
    destruct (erase_nth_error _ _ _ _ E Hm) as (m' & Hm' & Em).
    exists m'. split; [exact Hm'|]. now rewrite (erase_rbl _ _ Em).
  - eapply Permutation_NoDup;
      [apply Permutation_map; exact Hperm|].
    rewrite map_map.
    erewrite map_ext_in; [exact Hnd|].
    intros [k r] Hkr. simpl.
    rewrite Forall_forall in Hall.
    destruct (Hall _ Hkr) as (m & Hm & Hk); simpl in *.
    now rewrite (key_of_sort_key _ _ _ Hm).
  - apply sort_by_sorted.
    + apply pair_ltb_irrefl.
    + apply pair_ltb_trans.
    + apply pair_ltb_total.
    + apply pair_dec.
  - intros Hno.
    assert (Hno' : forall m, In m s -> rbl_in (rbl m) (rbls station) = false).
    { intros m Hm. apply In_nth_error in Hm. destruct Hm as [r Hm].
      destruct (erase_nth_error _ _ _ _ E Hm) as (m' & Hm' & Em).
      rewrite <- (erase_rbl _ _ Em). apply Hno. eapply nth_error_In; eauto. }
    rewrite (matching_nil _ _ Hno') in Hfold. simpl in Hfold.
    inversion Hfold; subst. reflexivity.
Qed.

Lemma group_refs_spec stations s s' views :
  group_refs upper s stations = (s', views) ->
  map erase s' = map erase s /\ Forall2 (view_ok upper s') stations views.
Proof.
  revert s s' views; induction stations as [|station rest IH]; simpl;
    intros s s' views H.
  - inversion H; subst. split; [reflexivity|constructor].
  - destruct (group_station upper s station) as [s1 v] eqn:H1.
    destruct (group_refs upper s1 rest) as [s2 vs] eqn:H2.
    inversion H; subst s2 views; clear H.
    destruct (group_station_spec _ _ _ _ H1) as (E1 & Hv).
    destruct (IH _ _ _ H2) as (E2 & Hvs).
    split; [congruence|].
    constructor; [|exact Hvs]. now apply (view_ok_erase s1).
Qed.

Lemma StronglySorted_map {A B} (R : B -> B -> Prop) (f : A -> B) l :
  StronglySorted R (map f l) <-> StronglySorted (fun a b => R (f a) (f b)) l.
Proof.
  induction l as [|x l IH]; simpl.
  - split; constructor.
  - split; intros H; inversion H; subst; constructor;
      try (now apply IH); rewrite Forall_forall in *; intros y Hy.
    + match goal with H : forall _, In _ (map f l) -> _ |- _ =>
        apply H; now apply in_map end.
    + apply in_map_iff in Hy. destruct Hy as (a & <- & Ha). auto.
Qed.

(** What the caller reads in one entry of the result. *)
Lemma resolve_ok s station v :
  view_ok upper s station v ->
  sv_name (resolve s v) = station_name station /\
  (forall m, In m (lines (resolve s v)) ->
     rbl_in (rbl m) (rbls station) = true) /\
  StronglySorted
    (fun a b => pair_ltb (line_key a) (line_key b) = true)
    (lines (resolve s v)) /\
  NoDup (map (key_of upper) (lines (resolve s v))) /\
  ((forall m, In m s -> rbl_in (rbl m) (rbls station) = false) ->
   lines (resolve s v) = []).
Proof.
  intros (Hn & Hr & Hnd & Hs & Hnil). simpl.
  assert (Hkey : map line_key (deref s (view_lines v)) =
                 map (sort_key s) (view_lines v)).
  { apply deref_map. intros r Hin. destruct (Hr r Hin) as (m & Hm & _).
    exists m. split; [exact Hm|]. unfold sort_key. now rewrite Hm. }
  assert (Hup : map (key_of upper) (deref s (view_lines v)) =
                map (fun r => upper_pair upper (sort_key s r)) (view_lines v)).
  { apply deref_map. intros r Hin. destruct (Hr r Hin) as (m & Hm & _).
    exists m. split; [exact Hm|]. now rewrite (key_of_sort_key _ _ _ Hm). }
  assert (Hnd' : NoDup (map (key_of upper) (deref s (view_lines v))))
    by now rewrite Hup.
  split; [exact Hn|]. split; [|split; [|split]].
  - intros m Hm. apply in_deref in Hm. destruct Hm as (r & Hin & Hm).
    destruct (Hr r Hin) as (m' & Hm' & Hrbl). congruence.
  - apply (sorted_nodup_strict pair_ltb line_key pair_ltb_irrefl
             pair_ltb_trans pair_ltb_total pair_dec).
    + apply (StronglySorted_map (fun p q => pair_ltb q p = false) line_key).
      rewrite Hkey.
      now apply (StronglySorted_map (fun p q => pair_ltb q p = false)).
    + apply (NoDup_map_inv (upper_pair upper)). now rewrite map_map.
  - exact Hnd'.
  - intros Hno. now rewrite (Hnil Hno).
Qed.

Lemma group_by_station_spec monitors stations :
  exists s views,
    group_refs upper monitors stations = (s, views) /\
    map erase s = map erase monitors /\
    group_by_station upper monitors stations = map (resolve s) views /\
    Forall2 (view_ok upper s) stations views.
Proof.
  unfold group_by_station.
  destruct (group_refs upper monitors stations) as [s views] eqn:H.
  destruct (group_refs_spec _ _ _ _ H) as (E & Hall).
  exists s, views. auto.
Qed.

Lemma Forall2_map_r {A B C} (R : A -> C -> Prop) (f : B -> C) l l' :
  Forall2 (fun a b => R a (f b)) l l' -> Forall2 R l (map f l').
Proof. induction 1; simpl; constructor; auto. Qed.

Lemma Forall2_Forall_r {A B} (R : A -> B -> Prop) (P : B -> Prop) l l' :
  Forall2 R l l' -> (forall a b, R a b -> P b) -> Forall P l'.
Proof. induction 1; intros H'; constructor; eauto. Qed.

End AggregatorFacts.

(** ** The aggregator: the first record of a key represents it *)

Section FirstSeen.
Import Api Spec.
Variable upper : str -> str.

Lemma key_at_erase s s' r :
  map erase s' = map erase s -> key_at upper s' r = key_at upper s r.
Proof.
  intros E. unfold key_at.
  destruct (nth_error s r) as [m|] eqn:H.
  - destruct (erase_nth_error _ _ _ _ E H) as (m' & -> & Em).
    simpl. f_equal. now apply key_of_erase.
  - destruct (nth_error s' r) as [m'|] eqn:H'; [|reflexivity].
    destruct (erase_nth_error _ _ _ _ (eq_sym E) H') as (m0 & H0 & _).
    congruence.
Qed.

Lemma merge_line_erase seen s line :
  map erase (snd (merge_line upper (seen, s) line)) = map erase s.
Proof.
  unfold merge_line.
  destruct (nth_error s line) as [line_dict|]; [|reflexivity].
  destruct (seen_find _ seen) as [existing|]; [|reflexivity].
  destruct (nth_error s existing) as [existing_dict|]; [|reflexivity].
  apply erase_set_departures.
Qed.

Lemma first_inv_ext ka ka' processed seen :
  (forall r, ka' r = ka r) -> first_inv ka processed seen ->
  first_inv ka' processed seen.
Proof.
  intros E [H1 H2]. split.
  - intros r k Hr Hk. rewrite E in Hk. eauto.
  - intros k r Hkr. destruct (H2 k r Hkr) as (Hk & pre & post & Hp & Hpre).
    split; [now rewrite E|]. exists pre, post. split; [exact Hp|].
    intros r' Hr'. rewrite E. auto.
Qed.

Lemma first_inv_old ka processed seen line k r :
  first_inv ka processed seen -> In (k, r) seen ->
  ka r = Some k /\
  exists pre post,
    processed ++ [line] = pre ++ r :: post /\
    forall r', In r' pre -> ka r' <> Some k.
Proof.
  intros [_ H2] Hkr. destruct (H2 k r Hkr) as (Hk & pre & post & -> & Hpre).
  split; [exact Hk|]. exists pre, (post ++ [line]).
  split; [now rewrite <- app_assoc|exact Hpre].
Qed.

Lemma merge_line_first processed seen s line :
  first_inv (key_at upper s) processed seen ->
  first_inv (key_at upper s) (processed ++ [line])
    (fst (merge_line upper (seen, s) line)).
Proof.
  intros Hinv. pose proof Hinv as [H1 H2]. unfold merge_line.
  destruct (nth_error s line) as [line_dict|] eqn:Hl.
  - destruct (seen_find (key_of upper line_dict) seen) as [existing|] eqn:Hf.
    + assert (Hseen : fst (match nth_error s existing with
                           | Some existing_dict =>
                               (seen,
                                set_departures s existing
                                  (sort_departures
                                     (departures existing_dict ++
                                      departures line_dict)))
                           | None => (seen, s)
                           end) = seen)
        by (destruct (nth_error s existing); reflexivity).
      rewrite Hseen. split.
      * intros r k Hr Hk. apply in_app_or in Hr.
        destruct Hr as [Hr|[<-|[]]]; [eauto|].
        unfold key_at in Hk. rewrite Hl in Hk. inversion Hk; subst k.
        apply seen_find_some in Hf.
        apply (in_map fst) in Hf. exact Hf.
      * intros k r Hkr. apply (first_inv_old _ _ seen); assumption.
    + simpl. split.
      * intros r k Hr Hk. rewrite map_app. apply in_or_app.
        apply in_app_or in Hr. destruct Hr as [Hr|[<-|[]]]; [left; eauto|].
        unfold key_at in Hk. rewrite Hl in Hk. inversion Hk; subst k.
        right. now left.
      * intros k r Hkr. apply in_app_or in Hkr.
        destruct Hkr as [Hkr|[Hkr|[]]]; [apply (first_inv_old _ _ seen); assumption|].
        inversion Hkr; subst k r. split.
        -- unfold key_at. now rewrite Hl.
        -- exists processed, []. split; [reflexivity|].
           intros r' Hr' Hk.
           apply (seen_find_none upper _ _ Hf). eauto.
  - simpl. split.
    + intros r k Hr Hk. apply in_app_or in Hr.
      destruct Hr as [Hr|[<-|[]]]; [eauto|].
      unfold key_at in Hk. rewrite Hl in Hk. discriminate.
    + intros k r Hkr. apply (first_inv_old _ _ seen); assumption.
Qed.

Lemma fold_merge_first lines :
  forall processed seen s,
    first_inv (key_at upper s) processed seen ->
    first_inv (key_at upper s) (processed ++ lines)
      (fst (fold_left (merge_line upper) lines (seen, s))).
Proof.
  induction lines as [|line lines IH]; cbn [fold_left];
    intros processed seen s Hinv.
  - now rewrite app_nil_r.
  - pose proof (merge_line_first processed seen s line Hinv) as H1.
    pose proof (merge_line_erase seen s line) as E.
    destruct (merge_line upper (seen, s) line) as [seen1 s1].
    simpl in H1, E.
    apply (first_inv_ext _ (key_at upper s1)) in H1.
    2:{ intros r. now apply key_at_erase. }
    apply IH in H1. rewrite <- app_assoc in H1. simpl in H1.
    apply (first_inv_ext (key_at upper s1)); [|exact H1].
    intros r. symmetry. now apply key_at_erase.
Qed.

Lemma seq_increasing a n : StronglySorted Nat.lt (seq a n).
Proof.
  revert a; induction n as [|n IH]; intros a; simpl; constructor.
  - apply IH.
  - apply Forall_forall. intros x Hx. apply in_seq in Hx. lia.
Qed.

Lemma filter_increasing (f : nat -> bool) l :
  StronglySorted Nat.lt l -> StronglySorted Nat.lt (filter f l).
Proof.
  induction 1 as [|x l Hs IH Hall]; simpl; [constructor|].
  destruct (f x); [|exact IH]. constructor; [exact IH|].
  rewrite Forall_forall in *. intros y Hy. apply filter_In in Hy.
  apply Hall. tauto.
Qed.

Lemma increasing_before pre r post r' :
  StronglySorted Nat.lt (pre ++ r :: post) ->
  In r' (pre ++ r :: post) -> (r' < r)%nat -> In r' pre.
Proof.
  induction pre as [|x pre IH]; simpl; intros Hs Hin Hlt.
  - inversion Hs as [|? ? _ Hall]; subst. rewrite Forall_forall in Hall.
    destruct Hin as [<-|Hin]; [lia|]. specialize (Hall _ Hin). lia.
  - inversion Hs as [|? ? Hs' _]; subst.
    destruct Hin as [<-|Hin]; [now left|]. right. now apply IH.
Qed.

Lemma group_station_first s station :
  first_ok upper (fst (group_station upper s station)) station
    (snd (group_station upper s station)).
Proof.
  unfold group_station.
  pose proof (fold_merge_first (matching s (rbls station)) [] [] s) as Hinv.
  assert (E : map erase
                (snd (fold_left (merge_line upper)
                        (matching s (rbls station)) ([], s))) =
              map erase s).
  { assert (Hok0 : seen_ok upper s []) by (split; constructor).
    destruct (fold_left _ _ _) as [seen0 s0] eqn:Hfold.
    now destruct (fold_merge_spec upper _ _ _ _ _ Hfold Hok0) as (E & _). }
  destruct (fold_left (merge_line upper) (matching s (rbls station)) ([], s))
    as [seen s1].
  simpl in Hinv, E |- *.
  assert (H0 : first_inv (key_at upper s) [] []).
  { split; [intros r k []|intros k r []]. }
  destruct (Hinv H0) as [_ H2]. clear Hinv H0.
  intros r Hr r' m' Hlt Hm' Hrbl.
  apply (Permutation_in _
           (Permutation_sym (sort_by_perm pair_ltb (sort_key s1) _))) in Hr.
  apply in_map_iff in Hr. destruct Hr as ([k r0] & Hsnd & Hkr).
  simpl in Hsnd. subst r0.
  destruct (H2 k r Hkr) as (Hk & pre & post & Hp & Hpre).
  rewrite !(key_at_erase _ _ _ E), Hk.
  apply Hpre.
  assert (Hs : StronglySorted Nat.lt (matching s (rbls station)))
    by apply filter_increasing, seq_increasing.
  assert (Hin : In r' (matching s (rbls station))).
  { apply in_matching.
    destruct (erase_nth_error _ _ _ _ (eq_sym E) Hm') as (m0 & Hm0 & Em).
    exists m0. split; [exact Hm0|]. now rewrite (erase_rbl _ _ Em). }
  simpl in Hp. rewrite Hp in Hs, Hin.
  exact (increasing_before pre r post r' Hs Hin Hlt).
Qed.

Lemma first_ok_erase s s' station v :
  map erase s' = map erase s -> first_ok upper s station v ->
  first_ok upper s' station v.
Proof.
  intros E H r Hr r' m' Hlt Hm' Hrbl.
  rewrite !(key_at_erase _ _ _ E).
  destruct (erase_nth_error _ _ _ _ (eq_sym E) Hm') as (m0 & Hm0 & Em).
  apply (H r Hr r' m0 Hlt Hm0). now rewrite (erase_rbl _ _ Em).
Qed.

Lemma group_refs_first stations s s' views :
  group_refs upper s stations = (s', views) ->
  Forall2 (first_ok upper s') stations views.
Proof.
  revert s s' views; induction stations as [|station rest IH]; simpl;
    intros s s' views H.
  - inversion H; subst. constructor.
  - pose proof (group_station_first s station) as H1.
    destruct (group_station upper s station) as [s1 v].
    destruct (group_refs upper s1 rest) as [s2 vs] eqn:H2.
    inversion H; subst s2 views; clear H. simpl in H1.
    destruct (group_refs_spec upper _ _ _ _ H2) as (E2 & _).
    constructor; [|now apply (IH s1)].
    now apply (first_ok_erase s1).
Qed.

(** Read by the caller: every line of an entry is the first record of its
    key among the monitors at the station's stops. *)
Lemma resolve_first monitors s station v :
  map erase s = map erase monitors ->
  view_ok upper s station v -> first_ok upper s station v ->
  Forall (first_seen upper monitors station) (lines (resolve s v)).
Proof.
  intros E (_ & Hr & _) Hfirst. apply Forall_forall. intros l Hl.
  simpl in Hl. apply in_deref in Hl. destruct Hl as (r & Hin & Hl).
  destruct (Hr r Hin) as (l' & Hl' & Hrbl).
  assert (l' = l) by congruence. subst l'.
  destruct (erase_nth_error _ _ _ _ (eq_sym E) Hl) as (m & Hm & Em).
  exists r, m. split; [exact Hm|]. split; [exact Em|].
  split; [now rewrite (erase_rbl _ _ Em)|].
  intros r' m' Hlt Hm' Hrbl' Hkey.
  destruct (erase_nth_error _ _ _ _ E Hm') as (m1 & Hm1 & Em1).
  apply (Hfirst r Hin r' m1 Hlt Hm1).
  - now rewrite (erase_rbl _ _ Em1).
  - unfold key_at. rewrite Hm1, Hl. simpl. f_equal.
    now rewrite (key_of_erase upper _ _ Em1).
Qed.

End FirstSeen.

(** ** The aggregator: the claims *)

Section AggregatorClaims.
Import Api Spec.

Lemma Forall2_and {A B} (P Q : A -> B -> Prop) l l' :
  Forall2 P l l' -> Forall2 Q l l' -> Forall2 (fun a b => P a b /\ Q a b) l l'.
Proof.
  induction 1; intros HQ; inversion HQ; subst; constructor; auto.
Qed.

(** C6: in every entry of the result the lines are in strictly increasing
    order of the pair (name, towards) as displayed, and no two of them have
    the same upper-cased pair; the name and direction displayed for a line
    are those of the first record with its key at a stop of the station. *)
Theorem lines_strictly_ordered (upper : str -> str)
  (monitors : list Monitor) (stations : list Station) :
  Forall
    (fun sv =>
       StronglySorted
         (fun a b => pair_ltb (line_key a) (line_key b) = true) (lines sv) /\
       NoDup (map (key_of upper) (lines sv)))
    (group_by_station upper monitors stations) /\
  Forall2
    (fun station sv => Forall (first_seen upper monitors station) (lines sv))
    stations (group_by_station upper monitors stations).
Proof.
  destruct (group_by_station_spec upper monitors stations)
    as (s & views & Hgroup & E & -> & Hall).
  split.
  - apply Forall_map.
    eapply Forall2_Forall_r; [exact Hall|].
    intros station v Hv.
    destruct (resolve_ok upper _ _ _ Hv) as (_ & _ & Hs & Hnd & _). auto.
  - apply Forall2_map_r.
    eapply Forall2_impl;
      [|exact (Forall2_and _ _ _ _ Hall (group_refs_first upper _ _ _ _ Hgroup))].
    intros station v [Hv Hf]. now apply (resolve_first upper monitors s).
Qed.

(** C7: the result has one entry per configured station, in configuration
    order and under the station's name; its lines all come from monitors at
    the station's stops, it has no lines when no monitor is at one of them,
    and a monitor without a stop or at a stop of no station is in no entry.
    The function is total, so no input makes it fail; the empty list that
    [fetch_departures] returns after a transport failure gives every
    station an entry without lines. *)
Theorem one_view_per_station (upper : str -> str)
  (monitors : list Monitor) (stations : list Station) :
  Forall2
    (fun station sv =>
       sv_name sv = station_name station /\
       (forall m, In m (lines sv) -> rbl_in (rbl m) (rbls station) = true) /\
       ((forall m, In m monitors -> rbl_in (rbl m) (rbls station) = false) ->
        lines sv = []))
    stations (group_by_station upper monitors stations) /\
  map sv_name (group_by_station upper monitors stations) =
  map station_name stations /\
  (forall m,
     rbl m = None \/
     (forall station, In station stations ->
        rbl_in (rbl m) (rbls station) = false) ->
     Forall (fun sv => ~ In m (lines sv))
       (group_by_station upper monitors stations)) /\
  group_by_station upper [] stations =
  map (fun station => {| sv_name := station_name station; lines := [] |})
    stations /\
  (forall strip title, fetch_departures strip title RequestFailed = Ok []).
Proof.
  assert (Hmain : forall monitors,
    Forall2
      (fun station sv =>
         sv_name sv = station_name station /\
         (forall m, In m (lines sv) -> rbl_in (rbl m) (rbls station) = true) /\
         ((forall m, In m monitors -> rbl_in (rbl m) (rbls station) = false) ->
          lines sv = []))
      stations (group_by_station upper monitors stations)).
  { clear monitors. intros monitors.
    destruct (group_by_station_spec upper monitors stations)
      as (s & views & _ & E & -> & Hall).
    apply Forall2_map_r.
    eapply Forall2_impl; [|exact Hall].
    intros station v Hv.
    destruct (resolve_ok upper _ _ _ Hv) as (Hn & Hr & _ & _ & Hnil).
    split; [exact Hn|]. split; [exact Hr|].
    intros Hno. apply Hnil. intros m Hm.
    apply In_nth_error in Hm. destruct Hm as [r Hm].
    destruct (erase_nth_error _ _ _ _ (eq_sym E) Hm) as (m' & Hm' & Em).
    rewrite <- (erase_rbl _ _ Em). apply Hno. eapply nth_error_In; eauto. }
  split; [apply Hmain|]. split; [|split; [|split; [|reflexivity]]].
  - specialize (Hmain monitors).
    induction Hmain as [|st sv sts svs (Hn & _) _ IH]; simpl; congruence.
  - intros m Hm. specialize (Hmain monitors).
    induction Hmain as [|st sv sts svs (_ & Hr & _) _ IH]; constructor.
    + intros Hin. specialize (Hr m Hin).
      destruct Hm as [Hm|Hm].
      * rewrite Hm in Hr. discriminate.
      * rewrite (Hm st (or_introl eq_refl)) in Hr. discriminate.
    + apply IH. destruct Hm as [Hm|Hm]; [now left|right].
      intros station Hs. apply Hm. now right.
  - specialize (Hmain []).
    induction Hmain as [|st sv sts svs (Hn & _ & Hnil) _ IH]; simpl;
      [reflexivity|].
    rewrite IH. f_equal. destruct sv as [n l]; simpl in *.
    rewrite Hn, Hnil; [reflexivity|]. intros m [].
Qed.

End AggregatorClaims.

(** ** The order of departures *)

Section DepartureOrder.
Import Api Spec.

Lemma StronglySorted_weaken {A} (R R' : A -> A -> Prop) l :
  (forall a b, R a b -> R' a b) -> StronglySorted R l -> StronglySorted R' l.
Proof.
  intros H. induction 1; constructor; auto.
  eapply Forall_impl; [|eassumption]. auto.
Qed.

Lemma Z_ltb_total (a b : Z) : a <> b -> (a <? b) = true \/ (b <? a) = true.
Proof. rewrite !Z.ltb_lt. lia. Qed.

Lemma Z_dec (a b : Z) : a = b \/ a <> b.
Proof. lia. Qed.

Lemma Z_ltb_trans (a b c : Z) :
  (a <? b) = true -> (b <? c) = true -> (a <? c) = true.
Proof. rewrite !Z.ltb_lt. lia. Qed.

Lemma sort_departures_ascending deps : ascending (sort_departures deps).
Proof.
  unfold ascending, sort_departures.
  eapply StronglySorted_weaken;
    [|apply (sort_by_sorted Z.ltb countdown Z.ltb_irrefl Z_ltb_trans
               Z_ltb_total Z_dec)].
  intros a b. simpl. rewrite Z.ltb_ge. auto.
Qed.

Lemma sort_departures_perm deps : Permutation deps (sort_departures deps).
Proof. apply sort_by_perm. Qed.

Lemma sort_departures_id deps : ascending deps -> sort_departures deps = deps.
Proof.
  intros H. apply (sort_by_id Z.ltb countdown).
  eapply StronglySorted_weaken; [|exact H].
  intros a b. simpl. rewrite Z.ltb_ge. auto.
Qed.

(** An ascending list of integers is determined by its elements. *)
Lemma ascending_unique (l l' : list Z) :
  StronglySorted Z.le l -> StronglySorted Z.le l' -> Permutation l l' ->
  l = l'.
Proof.
  revert l'; induction l as [|x l IH]; intros l' Hs Hs' Hp.
  - apply Permutation_nil in Hp. now subst.
  - destruct l' as [|y l'];
      [apply Permutation_sym, Permutation_nil in Hp; discriminate|].
    inversion Hs as [|? ? Hsl Hx]; subst.
    inversion Hs' as [|? ? Hsl' Hy]; subst.
    rewrite Forall_forall in Hx, Hy.
    assert (x = y).
    { assert (Hin : In y (x :: l))
        by (apply (Permutation_in _ (Permutation_sym Hp)); now left).
      assert (Hin' : In x (y :: l'))
        by (apply (Permutation_in _ Hp); now left).
      destruct Hin as [E|Hin]; [exact E|].
      destruct Hin' as [E|Hin']; [now symmetry|].
      specialize (Hx _ Hin). specialize (Hy _ Hin'). lia. }
    subst y. f_equal. apply IH; auto.
    now apply Permutation_cons_inv in Hp.
Qed.

Lemma ascending_countdowns deps deps' :
  ascending deps -> ascending deps' -> Permutation deps deps' ->
  map countdown deps = map countdown deps'.
Proof.
  intros H H' Hp. apply ascending_unique.
  - now apply StronglySorted_map.
  - now apply StronglySorted_map.
  - now apply Permutation_map.
Qed.

Lemma set_departures_ascending s r deps :
  Forall (fun m => ascending (departures m)) s -> ascending deps ->
  Forall (fun m => ascending (departures m)) (set_departures s r deps).
Proof.
  intros Hs Hd. revert r; induction Hs as [|m s Hm Hs IH]; intros [|r]; simpl;
    constructor; auto.
Qed.

Lemma merge_line_ascending upper seen s line :
  Forall (fun m => ascending (departures m)) s ->
  Forall (fun m => ascending (departures m))
    (snd (merge_line upper (seen, s) line)).
Proof.
  intros Hs. unfold merge_line.
  destruct (nth_error s line) as [line_dict|]; [|exact Hs].
  destruct (seen_find _ seen) as [existing|]; [|exact Hs].
  destruct (nth_error s existing) as [existing_dict|]; [|exact Hs].
  simpl. apply set_departures_ascending; [exact Hs|].
  apply sort_departures_ascending.
Qed.

Lemma fold_merge_ascending upper lines seen s :
  Forall (fun m => ascending (departures m)) s ->
  Forall (fun m => ascending (departures m))
    (snd (fold_left (merge_line upper) lines (seen, s))).
Proof.
  revert seen s; induction lines as [|line lines IH]; cbn [fold_left];
    intros seen s Hs; [exact Hs|].
  pose proof (merge_line_ascending upper seen s line Hs) as H1.
  destruct (merge_line upper (seen, s) line) as [seen1 s1]. now apply IH.
Qed.

Lemma group_refs_ascending upper stations s :
  Forall (fun m => ascending (departures m)) s ->
  Forall (fun m => ascending (departures m))
    (fst (group_refs upper s stations)).
Proof.
  revert s; induction stations as [|station rest IH]; simpl; intros s Hs;
    [exact Hs|].
  unfold group_station.
  pose proof (fold_merge_ascending upper (matching s (rbls station)) [] s Hs)
    as H1.
  destruct (fold_left _ _ _) as [seen s1]. simpl in H1.
  specialize (IH s1 H1).
  destruct (group_refs upper s1 rest) as [s2 vs]. exact IH.
Qed.

(** X16: when every record arrives with its departures in ascending
    order, so is every line of every entry of the result. *)
Lemma group_keeps_ascending upper monitors stations :
  Forall (fun m => ascending (departures m)) monitors ->
  Forall
    (fun sv => Forall (fun l => ascending (departures l)) (lines sv))
    (group_by_station upper monitors stations).
Proof.
  intros Hs. unfold group_by_station.
  pose proof (group_refs_ascending upper stations monitors Hs) as H.
  destruct (group_refs upper monitors stations) as [s views]. simpl in H.
  apply Forall_map. apply Forall_forall. intros v _. simpl.
  apply Forall_forall. intros m Hm.
  apply in_deref in Hm. destruct Hm as (r & _ & Hm).
  rewrite Forall_forall in H. apply H. eapply nth_error_In; eauto.
Qed.

(** C1: a line key that occurs in one record only is never sorted.  The
    record at stop 100 with countdowns 7, 2 comes out of [group_by_station]
    with its departures still in the order 7, 2, which is not ascending. *)
Theorem single_record_keeps_arrival_order :
  group_by_station ascii_upper [Sample.u4_out_of_order] [Sample.karlsplatz] =
  [{| sv_name := lit "Karlsplatz"; lines := [Sample.u4_out_of_order] |}] /\
  map countdown (departures Sample.u4_out_of_order) = [7; 2] /\
  ~ ascending (departures Sample.u4_out_of_order).
Proof.
  split; [reflexivity|]. split; [reflexivity|].
  intros H. inversion H as [|? ? _ Hall]; subst.
  inversion Hall as [|? ? Hle _]; subst. simpl in Hle. lia.
Qed.

End DepartureOrder.

(** ** Merging the records of one line *)

Section SameKey.
Import Api Spec.
Variable upper : str -> str.
Variable station : Station.
Variable k : str * str.

(** Records of the line with key [k], at stops of [station]. *)
Let of_line (m : Monitor) : Prop :=
  key_of upper m = k /\ rbl_in (rbl m) (rbls station) = true.

Lemma filter_all {A} (f : A -> bool) l :
  (forall x, In x l -> f x = true) -> filter f l = l.
Proof.
  induction l as [|x l IH]; simpl; intros H; [reflexivity|].
  rewrite (H x (or_introl eq_refl)), IH; auto.
Qed.

Lemma matching_all s :
  Forall (fun m => rbl_in (rbl m) (rbls station) = true) s ->
  matching s (rbls station) = seq 0 (List.length s).
Proof.
  intros H. unfold matching. apply filter_all. intros r Hr.
  apply in_seq in Hr.
  destruct (nth_error s r) as [m|] eqn:Hm.
  - rewrite Forall_forall in H. apply H. eapply nth_error_In; eauto.
  - apply nth_error_None in Hm. lia.
Qed.

Lemma skipn_cons {A} (l : list A) j x l' :
  skipn j l = x :: l' -> nth_error l j = Some x /\ skipn (S j) l = l'.
Proof.
  revert j; induction l as [|y l IH]; intros [|j]; simpl; try discriminate.
  - intros E; inversion E. auto.
  - intros E. apply IH in E. exact E.
Qed.

Lemma fold_same_key a rest l :
  Forall of_line rest ->
  forall j deps,
    skipn j rest = l ->
    fold_left (merge_line upper) (seq (S j) (List.length l))
      ([(k, O)], with_departures a deps :: rest) =
    ([(k, O)], with_departures a (merged_departures deps l) :: rest).
Proof.
  intros Hrest. induction l as [|m l IH]; intros j deps Hj; [reflexivity|].
  destruct (skipn_cons _ _ _ _ Hj) as [Hm Hj'].
  cbn [List.length seq fold_left merged_departures].
  assert (Hk : key_of upper m = k).
  { rewrite Forall_forall in Hrest.
    apply (Hrest m). eapply nth_error_In; eauto. }
  assert (Hstep :
    merge_line upper ([(k, O)], with_departures a deps :: rest) (S j) =
    ([(k, O)],
     with_departures a (sort_departures (deps ++ departures m)) :: rest)).
  { unfold merge_line. cbn [nth_error]. rewrite Hm, Hk.
    cbn [seen_find].
    assert (key_eqb k k = true) as -> by now apply key_eqb_eq.
    reflexivity. }
  rewrite Hstep. apply (IH (S j)). exact Hj'.
Qed.

(** The records of one line leave one entry: the first record, with the
    departures of the others merged into it in turn. *)
Lemma same_key_group a rest :
  Forall of_line (a :: rest) ->
  group_by_station upper (a :: rest) [station] =
  [{| sv_name := station_name station;
      lines := [with_departures a (merged_departures (departures a) rest)] |}].
Proof.
  intros Hall.
  pose proof (Forall_inv Hall) as [Hk Hr].
  pose proof (Forall_inv_tail Hall) as Hrest.
  unfold group_by_station, group_refs, group_station.
  rewrite matching_all.
  2:{ eapply Forall_impl; [|exact Hall]. now intros m [_ H]. }
  cbn [List.length seq fold_left].
  assert (Hfirst : merge_line upper ([], a :: rest) O =
                   ([(key_of upper a, O)],
                    with_departures a (departures a) :: rest)).
  { unfold merge_line. cbn [nth_error seen_find app].
    destruct a; reflexivity. }
  unfold store, ref in *. rewrite Hfirst, Hk.
  pose proof (fold_same_key a rest rest Hrest O (departures a) eq_refl)
    as Hfold.
  unfold store, ref in Hfold. rewrite Hfold. reflexivity.
Qed.

Lemma merged_departures_perm deps rest :
  Permutation (merged_departures deps rest)
    (deps ++ List.concat (map departures rest)).
Proof.
  revert deps; induction rest as [|m rest IH]; intros deps; simpl.
  - now rewrite app_nil_r.
  - unfold merged_departures in *. simpl. rewrite IH.
    rewrite <- sort_departures_perm. now rewrite app_assoc.
Qed.

Lemma merged_departures_ascending deps rest :
  rest <> [] \/ ascending deps -> ascending (merged_departures deps rest).
Proof.
  revert deps; induction rest as [|m rest IH]; intros deps H.
  - destruct H as [H|H]; [now elim H|exact H].
  - unfold merged_departures in *. simpl. apply IH. right.
    apply sort_departures_ascending.
Qed.

Lemma merged_departures_app deps rest rest' :
  merged_departures deps (rest ++ rest') =
  merged_departures (merged_departures deps rest) rest'.
Proof. apply fold_left_app. Qed.

End SameKey.

Section MergeClaims.
Import Api Spec.

(** C4: end to end, the two raw monitors of Karlsplatz, stop 100 with line
    ["U4"] towards ["heiligenstadt"] in 7 minutes and stop 101 with line
    ["u4"] towards ["Heiligenstadt"] in 2 minutes, give exactly one entry,
    Karlsplatz, with exactly one line: ["U4"] towards ["Heiligenstadt"],
    countdowns 2, 7 in that order.  [fetch_departures] returns one record
    per stop, both with the direction in title case (api.py line 56);
    [group_by_station] then finds the second under the key of the first,
    keeps the first record's name and sorts the joined departures. *)
Theorem karlsplatz_end_to_end :
  exists fetched monitors,
    fetch_departures ascii_strip ascii_title (Body Sample.karlsplatz_payload) =
    Ok fetched /\
    typed_lines fetched = Some monitors /\
    map rbl monitors = [Some 100; Some 101] /\
    map name monitors = [lit "U4"; lit "u4"] /\
    map towards monitors = [lit "Heiligenstadt"; lit "Heiligenstadt"] /\
    map (fun m => map countdown (departures m)) monitors = [[7]; [2]] /\
    group_by_station ascii_upper monitors [Sample.karlsplatz] =
    [{| sv_name := lit "Karlsplatz";
        lines := [{| rbl := Some 100; name := lit "U4";
                     towards := lit "Heiligenstadt";
                     departures := [Sample.dep 2; Sample.dep 7] |}] |}].
Proof.
  eexists. eexists. split; [reflexivity|]. repeat split.
Qed.

(** C5, as stated: the merge is neither idempotent nor independent of the
    order.  Merging the two Karlsplatz records with themselves gives the
    countdowns 2, 2, 7, 7 where merging them once gives 2, 7; and the line
    is named after whichever record comes first. *)
Lemma merge_not_idempotent :
  map (fun sv => map (fun l => map countdown (departures l)) (lines sv))
    (group_by_station ascii_upper
       ([Sample.u4_at_100; Sample.u4_at_101] ++
        [Sample.u4_at_100; Sample.u4_at_101]) [Sample.karlsplatz]) =
  [[[2; 2; 7; 7]]] /\
  map (fun sv => map (fun l => map countdown (departures l)) (lines sv))
    (group_by_station ascii_upper [Sample.u4_at_100; Sample.u4_at_101]
       [Sample.karlsplatz]) = [[[2; 7]]] /\
  map (fun sv => map name (lines sv))
    (group_by_station ascii_upper [Sample.u4_at_100; Sample.u4_at_101]
       [Sample.karlsplatz]) = [[lit "U4"]] /\
  map (fun sv => map name (lines sv))
    (group_by_station ascii_upper [Sample.u4_at_101; Sample.u4_at_100]
       [Sample.karlsplatz]) = [[lit "u4"]].
Proof. repeat split. Qed.

(** C5, amended: two or more records of one line, at stops of the station,
    merge into one line whose departures are all of theirs, in ascending
    order of countdown.  Presented in another order they give the same
    departures up to the order of equal countdowns, so the same countdown
    sequence, under the name and direction of the record presented first.
    Merging a first part and then the rest into its result gives what
    merging all at once gives.  Departure lists are concatenated, never
    deduplicated. *)
Theorem merge_same_key_records (upper : str -> str) (station : Station)
  (k : str * str) (first first' : Monitor) (rest rest' : list Monitor) :
  Forall
    (fun m => key_of upper m = k /\ rbl_in (rbl m) (rbls station) = true)
    (first :: rest) ->
  Permutation (first :: rest) (first' :: rest') ->
  rest <> [] ->
  exists deps deps',
    group_by_station upper (first :: rest) [station] =
    [{| sv_name := station_name station;
        lines := [with_departures first deps] |}] /\
    group_by_station upper (first' :: rest') [station] =
    [{| sv_name := station_name station;
        lines := [with_departures first' deps'] |}] /\
    ascending deps /\
    Permutation deps (flat_map departures (first :: rest)) /\
    Permutation deps deps' /\
    map countdown deps = map countdown deps' /\
    (forall done todo, rest = done ++ todo ->
       exists l,
         group_by_station upper (first :: done) [station] =
         [{| sv_name := station_name station; lines := [l] |}] /\
         group_by_station upper (l :: todo) [station] =
         group_by_station upper (first :: rest) [station]).
Proof.
  intros Hall Hperm Hrest.
  assert (Hall' : Forall
    (fun m => key_of upper m = k /\ rbl_in (rbl m) (rbls station) = true)
    (first' :: rest')) by (now rewrite <- Hperm).
  assert (Hrest' : rest' <> []).
  { intros ->. apply Permutation_length in Hperm. simpl in Hperm.
    destruct rest; [now apply Hrest|discriminate]. }
  assert (Hflat : forall a l,
    Permutation (merged_departures (departures a) l)
      (flat_map departures (a :: l))).
  { intros a l. rewrite merged_departures_perm. simpl.
    now rewrite flat_map_concat_map. }
  assert (Hpd : Permutation (merged_departures (departures first) rest)
                  (merged_departures (departures first') rest')).
  { rewrite !Hflat. now apply Permutation_flat_map. }
  exists (merged_departures (departures first) rest),
         (merged_departures (departures first') rest').
  split; [now apply (same_key_group upper station k)|].
  split; [now apply (same_key_group upper station k)|].
  split; [apply merged_departures_ascending; now left|].
  split; [apply Hflat|]. split; [exact Hpd|]. split.
  - apply ascending_countdowns; [| |exact Hpd];
      apply merged_departures_ascending; now left.
  - intros done todo ->.
    exists (with_departures first (merged_departures (departures first) done)).
    assert (Hd : Forall
      (fun m => key_of upper m = k /\ rbl_in (rbl m) (rbls station) = true)
      (first :: done)).
    { inversion Hall as [|? ? Hf Hr]; subst. constructor; [exact Hf|].
      apply Forall_app in Hr. apply Hr. }
    split; [now apply (same_key_group upper station k)|].
    rewrite (same_key_group upper station k first (done ++ todo) Hall).
    rewrite (same_key_group upper station k
               (with_departures first
                  (merged_departures (departures first) done)) todo).
    + simpl. now rewrite merged_departures_app.
    + inversion Hall as [|? ? Hf Hr]; subst. constructor; [exact Hf|].
      apply Forall_app in Hr. apply Hr.
Qed.

Lemma merge_same_key_records_witness :
  Forall
    (fun m =>
       key_of ascii_upper m = (lit "U4", lit "HEILIGENSTADT") /\
       rbl_in (rbl m) (rbls Sample.karlsplatz) = true)
    [Sample.u4_at_100; Sample.u4_at_101] /\
  Permutation [Sample.u4_at_100; Sample.u4_at_101]
    [Sample.u4_at_101; Sample.u4_at_100] /\
  exists deps deps',
    group_by_station ascii_upper [Sample.u4_at_100; Sample.u4_at_101]
      [Sample.karlsplatz] =
    [{| sv_name := lit "Karlsplatz";
        lines := [with_departures Sample.u4_at_100 deps] |}] /\
    group_by_station ascii_upper [Sample.u4_at_101; Sample.u4_at_100]
      [Sample.karlsplatz] =
    [{| sv_name := lit "Karlsplatz";
        lines := [with_departures Sample.u4_at_101 deps'] |}] /\
    map countdown deps = map countdown deps'.
Proof.
  assert (Hall : Forall
    (fun m =>
       key_of ascii_upper m = (lit "U4", lit "HEILIGENSTADT") /\
       rbl_in (rbl m) (rbls Sample.karlsplatz) = true)
    [Sample.u4_at_100; Sample.u4_at_101])
    by (repeat constructor).
  assert (Hperm : Permutation [Sample.u4_at_100; Sample.u4_at_101]
                    [Sample.u4_at_101; Sample.u4_at_100])
    by apply perm_swap.
  split; [exact Hall|]. split; [exact Hperm|].
  destruct (merge_same_key_records ascii_upper Sample.karlsplatz
              (lit "U4", lit "HEILIGENSTADT")
              Sample.u4_at_100 Sample.u4_at_101
              [Sample.u4_at_101] [Sample.u4_at_100] Hall Hperm
              ltac:(discriminate))
    as (deps & deps' & H1 & H2 & _ & _ & _ & H3 & _).
  exists deps, deps'. auto.
Defined.

End MergeClaims.

(** ** The fetcher *)

Section FetcherFacts.
Import Api Spec.
Variables strip title : str -> str.

Lemma get_field p k default d :
  absent_or p k d = true -> p default = true ->
  get d k default = Ok (field k default d) /\ p (field k default d) = true.
Proof.
  destruct d; simpl; try discriminate.
  destruct (lookup (lit k) items); auto.
Qed.

Lemma get_obj k default d :
  is_obj d = true -> get d k default = Ok (field k default d).
Proof. destruct d; simpl; try discriminate. reflexivity. Qed.

Lemma mapM_total {A B} (f : A -> result B) (g : A -> B) l :
  (forall a, In a l -> f a = Ok (g a)) -> mapM f l = Ok (map g l).
Proof.
  induction l as [|a l IH]; simpl; intros H; [reflexivity|].
  rewrite (H a (or_introl eq_refl)). simpl. rewrite IH; auto.
Qed.

Lemma iter_array p v :
  array_of p v = true ->
  iter v = Ok (elements v) /\ forall a, In a (elements v) -> p a = true.
Proof.
  destruct v; simpl; try discriminate. intros H. split; [reflexivity|].
  now apply forallb_forall.
Qed.

Lemma parse_departure_total dep :
  departure_ok dep = true ->
  parse_departure dep = Ok (departure_with_defaults dep).
Proof.
  intros H. unfold parse_departure, departure_with_defaults.
  destruct (get_field is_obj "departureTime" (JObj []) dep H eq_refl)
    as [-> Hobj]. simpl.
  rewrite !(get_obj _ _ _ Hobj). simpl.
  destruct (is_none _); reflexivity.
Qed.

Lemma parse_line_total rbl line_data :
  line_ok line_data = true ->
  parse_line strip title rbl line_data =
  Ok (line_with_defaults strip title rbl line_data).
Proof.
  unfold line_ok. rewrite !andb_true_iff. intros [[Hn Ht] Hd].
  unfold parse_line, line_with_defaults.
  destruct (get_field is_str "name" (JStr (lit "?")) line_data Hn eq_refl)
    as [-> Hn']. simpl.
  destruct (field "name" (JStr (lit "?")) line_data) as [| | |n| |];
    try discriminate. simpl.
  destruct (get_field is_str "towards" (JStr (lit "?")) line_data Ht eq_refl)
    as [-> Ht']. simpl.
  destruct (field "towards" (JStr (lit "?")) line_data) as [| | |t| |];
    try discriminate. simpl.
  destruct (get_field _ "departures" (JObj []) line_data Hd eq_refl)
    as [-> Hd']. simpl.
  destruct (get_field _ "departure" (JArr []) _ Hd' eq_refl) as [-> Ha]. simpl.
  destruct (iter_array _ _ Ha) as [-> Hall]. simpl.
  rewrite (mapM_total parse_departure departure_with_defaults).
  - reflexivity.
  - intros dep Hin. apply parse_departure_total. now apply Hall.
Qed.

Lemma parse_monitor_total monitor :
  monitor_ok monitor = true ->
  parse_monitor strip title monitor =
  Ok (monitor_with_defaults strip title monitor).
Proof.
  unfold monitor_ok. rewrite andb_true_iff. intros [Hl Hlines].
  unfold parse_monitor, monitor_with_defaults, line_entries.
  destruct (get_field _ "locationStop" (JObj []) monitor Hl eq_refl)
    as [-> Hp]. simpl.
  destruct (get_field _ "properties" (JObj []) _ Hp eq_refl) as [-> Ha]. simpl.
  destruct (get_field _ "attributes" (JObj []) _ Ha eq_refl) as [-> Ho]. simpl.
  rewrite (get_obj _ _ _ Ho). simpl.
  destruct (get_field _ "lines" (JArr []) monitor Hlines eq_refl)
    as [-> Harr]. simpl.
  destruct (iter_array _ _ Harr) as [-> Hall]. simpl.
  apply mapM_total. intros line_data Hin.
  apply parse_line_total. now apply Hall.
Qed.

Lemma check_message_total data :
  absent_or (absent_or hashable "serverCode") "message" data = true ->
  check_message data = Ok tt.
Proof.
  intros H. unfold check_message.
  destruct (get_field _ "message" (JObj []) data H eq_refl) as [-> Hm]. simpl.
  destruct (get_field _ "serverCode" JNull _ Hm eq_refl) as [-> Hh]. simpl.
  rewrite Hh. destruct (_ && _); reflexivity.
Qed.

Lemma fetch_departures_total data :
  payload_ok data = true ->
  fetch_departures strip title (Body data) =
  Ok (fetch_with_defaults strip title data).
Proof.
  unfold payload_ok. rewrite andb_true_iff. intros [Hm Hd].
  unfold fetch_departures, fetch_with_defaults, monitor_entries.
  rewrite (check_message_total _ Hm). simpl.
  destruct (get_field _ "data" (JObj []) data Hd eq_refl) as [-> Hms]. simpl.
  destruct (get_field _ "monitors" (JArr []) _ Hms eq_refl) as [-> Harr]. simpl.
  destruct (iter_array _ _ Harr) as [-> Hall]. simpl.
  rewrite (mapM_total (parse_monitor strip title)
             (monitor_with_defaults strip title)).
  - simpl. now rewrite flat_map_concat_map.
  - intros monitor Hin. apply parse_monitor_total. now apply Hall.
Qed.

End FetcherFacts.

Section FetcherClaims.
Import Api Spec.

Lemma py_eqb_none_l v : py_eqb JNull v = is_none v.
Proof. destruct v; reflexivity. Qed.

Lemma py_eqb_none_r v : py_eqb v JNull = is_none v.
Proof. destruct v; reflexivity. Qed.

Lemma is_none_false v : v <> JNull -> is_none v = false.
Proof. destruct v; simpl; congruence. Qed.

(** C2, as stated: a departure with a planned time and no actual time is
    flagged realtime, although one of the two fields is missing. *)
Lemma realtime_without_actual_time :
  parse_departure (JObj Sample.planned_only) =
  Ok (Some {| Fetched.countdown := JNum 3; Fetched.realtime := true |}) /\
  lookup (lit "timeReal") Sample.planned_only_time = None.
Proof. split; reflexivity. Qed.

(** C2, amended: for a departure with a countdown, [realtime] is true
    exactly when the planned-time and actual-time values differ, a missing
    field counting as null.  So it is false when both are missing, true
    when exactly one is missing and the other is not null, and for two
    present fields true exactly when they are unequal. *)
Theorem realtime_flag (dep_items items : list (str * json)) (c : json) :
  lookup (lit "departureTime") dep_items = Some (JObj items) ->
  lookup (lit "countdown") items = Some c ->
  c <> JNull ->
  exists flag,
    parse_departure (JObj dep_items) =
    Ok (Some {| Fetched.countdown := c; Fetched.realtime := flag |}) /\
    (flag = true <->
     py_eqb (field "timePlanned" JNull (JObj items))
       (field "timeReal" JNull (JObj items)) = false) /\
    (lookup (lit "timePlanned") items = None ->
     lookup (lit "timeReal") items = None -> flag = false) /\
    (forall p, lookup (lit "timePlanned") items = Some p -> p <> JNull ->
       lookup (lit "timeReal") items = None -> flag = true) /\
    (forall r, lookup (lit "timePlanned") items = None ->
       lookup (lit "timeReal") items = Some r -> r <> JNull -> flag = true) /\
    (forall p r, lookup (lit "timePlanned") items = Some p ->
       lookup (lit "timeReal") items = Some r ->
       (flag = true <-> py_eqb p r = false)).
Proof.
  intros Hd Hc Hnn.
  exists (negb (py_eqb (field "timePlanned" JNull (JObj items))
                  (field "timeReal" JNull (JObj items)))).
  split.
  - unfold parse_departure, get. rewrite Hd. simpl. rewrite Hc. simpl.
    rewrite (is_none_false _ Hnn). reflexivity.
  - split; [apply negb_true_iff|]. simpl. split; [|split; [|split]].
    + intros -> ->. reflexivity.
    + intros p -> Hp ->. rewrite py_eqb_none_r, (is_none_false _ Hp).
      reflexivity.
    + intros r -> -> Hr. rewrite py_eqb_none_l, (is_none_false _ Hr).
      reflexivity.
    + intros p r -> ->. apply negb_true_iff.
Qed.

Lemma realtime_flag_witness :
  lookup (lit "departureTime") Sample.planned_only =
  Some (JObj Sample.planned_only_time) /\
  lookup (lit "countdown") Sample.planned_only_time = Some (JNum 3) /\
  JNum 3 <> JNull /\
  exists flag,
    parse_departure (JObj Sample.planned_only) =
    Ok (Some {| Fetched.countdown := JNum 3; Fetched.realtime := flag |}) /\
    (flag = true <->
     py_eqb (field "timePlanned" JNull (JObj Sample.planned_only_time))
       (field "timeReal" JNull (JObj Sample.planned_only_time)) = false).
Proof.
  split; [reflexivity|]. split; [reflexivity|]. split; [discriminate|].
  destruct (realtime_flag Sample.planned_only Sample.planned_only_time
              (JNum 3) eq_refl eq_refl ltac:(discriminate))
    as (flag & H1 & H2 & _).
  exists flag. auto.
Defined.

(** C3, as stated: a line entry without a name gets the name ["?"], not
    the empty string; and an entry whose ["lines"] is null, rather than
    missing, makes the whole call raise. *)
Lemma missing_name_is_question_mark :
  parse_line ascii_strip ascii_title JNull (JObj []) =
  Ok {| Fetched.rbl := JNull; Fetched.name := lit "?";
        Fetched.towards := lit "?"; Fetched.departures := [] |} /\
  lit "?" <> [] /\
  fetch_departures ascii_strip ascii_title (Body Sample.null_lines_payload) =
  Raise TypeError.
Proof. split; [reflexivity|]. split; [discriminate|reflexivity]. Qed.

(** C3, amended: on a payload whose only defects are missing keys,
    [fetch_departures] raises nothing and returns one record per line
    entry, in order, each read with the defaults of the code: ["?"] for a
    missing name or direction (stripped, the direction also title-cased),
    no departures for a missing departure list, null for a missing stop
    number, and no record for a monitor without lines. *)
Theorem missing_keys_tolerated (strip title : str -> str) (data : json) :
  payload_ok data = true ->
  fetch_departures strip title (Body data) =
  Ok (fetch_with_defaults strip title data) /\
  List.length (fetch_with_defaults strip title data) =
  List.length (flat_map line_entries (monitor_entries data)) /\
  (forall rbl items, lookup (lit "name") items = None ->
     Fetched.name (line_with_defaults strip title rbl (JObj items)) =
     strip (lit "?")) /\
  (forall rbl items, lookup (lit "towards") items = None ->
     Fetched.towards (line_with_defaults strip title rbl (JObj items)) =
     title (strip (lit "?"))) /\
  (forall rbl items, lookup (lit "departures") items = None ->
     Fetched.departures (line_with_defaults strip title rbl (JObj items)) =
     []) /\
  (forall items, lookup (lit "locationStop") items = None ->
     Forall (fun l => Fetched.rbl l = JNull)
       (monitor_with_defaults strip title (JObj items))) /\
  (forall items, lookup (lit "lines") items = None ->
     monitor_with_defaults strip title (JObj items) = []).
Proof.
  intros Hok. split; [now apply fetch_departures_total|].
  split; [|split; [|split; [|split; [|split]]]].
  - unfold fetch_with_defaults, monitor_with_defaults.
    induction (monitor_entries data) as [|m ms IH]; simpl; [reflexivity|].
    now rewrite !length_app, length_map, IH.
  - intros rbl items H. simpl. now rewrite H.
  - intros rbl items H. simpl. now rewrite H.
  - intros rbl items H. simpl. now rewrite H.
  - intros items H. unfold monitor_with_defaults. apply Forall_map.
    apply Forall_forall. intros l _. simpl. now rewrite H.
  - intros items H. unfold monitor_with_defaults, line_entries. simpl.
    now rewrite H.
Qed.

Lemma missing_keys_tolerated_witness :
  payload_ok Sample.sparse_payload = true /\
  fetch_departures ascii_strip ascii_title (Body Sample.sparse_payload) =
  Ok [{| Fetched.rbl := JNull; Fetched.name := lit "?";
         Fetched.towards := lit "?"; Fetched.departures := [] |};
      {| Fetched.rbl := JNull; Fetched.name := lit "13A";
         Fetched.towards := lit "?";
         Fetched.departures :=
           [{| Fetched.countdown := JNum 4; Fetched.realtime := false |}] |}].
Proof.
  split; [reflexivity|].
  exact (proj1 (missing_keys_tolerated ascii_strip ascii_title
                  Sample.sparse_payload eq_refl)).
Defined.

End FetcherClaims.

(** ** The layout engine: direction truncation *)

Section Truncation.
Import Api Renderer.
Variable direction_width : str -> Z.
Variable line_bbox_right : Z -> str -> Z.

Lemma truncate_step limit d :
  truncate direction_width limit d =
  if (List.length d <=? 3)%nat then d
  else if direction_width (removelast d ++ ellipsis) <=? limit
       then removelast d ++ ellipsis
       else truncate direction_width limit (removelast d).
Proof.
  rewrite truncate_equation_1.
  destruct (le_lt_dec (List.length d) 3) as [H|H]; simpl.
  - apply Nat.leb_le in H. now rewrite H.
  - apply Nat.leb_gt in H. now rewrite H.
Qed.

Lemma prefix_snoc {A} (d : list A) c stem dropped :
  d ++ [c] = stem ++ dropped -> dropped <> [] ->
  exists dropped', dropped = dropped' ++ [c] /\ d = stem ++ dropped'.
Proof.
  intros H Hne. destruct (exists_last Hne) as (dr & x & ->).
  rewrite app_assoc in H. apply app_inj_tail in H. destruct H as [-> ->].
  now exists dr.
Qed.

(** The two ways the loop ends: with the longest stem of at least three
    characters that fits with the ellipsis, or, when none fits, with the
    first three characters and no ellipsis. *)
Lemma truncate_spec limit (n : nat) :
  forall d, List.length d = n ->
  (exists stem dropped,
     d = stem ++ dropped /\ dropped <> [] /\ (3 <= List.length stem)%nat /\
     truncate direction_width limit d = stem ++ ellipsis /\
     direction_width (stem ++ ellipsis) <= limit /\
     (forall stem' dropped',
        d = stem' ++ dropped' -> dropped' <> [] ->
        (List.length stem < List.length stem')%nat ->
        limit < direction_width (stem' ++ ellipsis))) \/
  (truncate direction_width limit d = firstn 3 d /\
   (forall stem dropped,
      d = stem ++ dropped -> dropped <> [] -> (3 <= List.length stem)%nat ->
      limit < direction_width (stem ++ ellipsis))).
Proof.
  induction n as [|n IH]; intros d Hlen; rewrite truncate_step.
  - right. rewrite Hlen. simpl. destruct d; [|discriminate].
    split; [reflexivity|]. intros stem dropped H _ H3.
    symmetry in H. apply app_eq_nil in H. destruct H as [-> _].
    simpl in H3. lia.
  - destruct (Nat.leb_spec (List.length d) 3) as [Hshort|Hlong].
    + right. split; [now rewrite firstn_all2|].
      intros stem dropped -> Hne H3. rewrite length_app in Hshort.
      destruct dropped; [now elim Hne|simpl in Hshort; lia].
    + assert (Hd : d <> []) by (intros ->; simpl in Hlong; lia).
      destruct (exists_last Hd) as (d' & c & ->).
      rewrite removelast_last.
      rewrite length_app in Hlen, Hlong. simpl in Hlen, Hlong.
      assert (Hlen' : List.length d' = n) by lia.
      destruct (Z.leb_spec (direction_width (d' ++ ellipsis)) limit)
        as [Hfit|Hwide].
      * left. exists d', [c]. repeat split; try assumption; try lia.
        -- discriminate.
        -- intros stem' dropped' H Hne Hlt.
           apply (f_equal (@List.length N)) in H. rewrite !length_app in H.
           simpl in H. destruct dropped'; [now elim Hne|simpl in H; lia].
      * destruct (IH d' Hlen')
          as [(stem & dropped & -> & Hne & H3 & Hr & Hfit & Hmax)|[Hr Hnone]].
        -- left. exists stem, (dropped ++ [c]).
           split; [now rewrite app_assoc|]. split.
           { intros E. apply app_eq_nil in E. destruct E; discriminate. }
           split; [exact H3|]. split; [exact Hr|]. split; [exact Hfit|].
           intros stem' dropped' H Hne' Hlt.
           destruct (prefix_snoc _ _ _ _ H Hne') as (dr & -> & E).
           destruct dr as [|x dr].
           ++ rewrite app_nil_r in E. rewrite <- E. exact Hwide.
           ++ apply (Hmax stem' (x :: dr)); [exact E|discriminate|exact Hlt].
        -- right. split.
           { rewrite Hr. rewrite firstn_app.
             replace (3 - List.length d')%nat with O by lia.
             simpl. now rewrite app_nil_r. }
           intros stem dropped H Hne H3.
           destruct (prefix_snoc _ _ _ _ H Hne) as (dr & -> & E).
           destruct dr as [|x dr].
           ++ rewrite app_nil_r in E. rewrite <- E. exact Hwide.
           ++ apply (Hnone stem (x :: dr)); [exact E|discriminate|exact H3].
Qed.

End Truncation.

Section TruncationClaims.
Import Api Renderer.

(** C9, as stated: on a canvas 280 pixels wide, in a fixed-pitch font, the
    direction "Heiligenstadt" is too wide and is drawn as "Hei", which
    does not end in an ellipsis; and where the ellipsis is narrower than a
    letter, the too wide "Wien" is drawn as "Wie…", which has as many
    characters as the original. *)
Lemma truncation_without_ellipsis :
  (max_dir_width Sample.fixed_pitch_right 280 (lit "u4") <
   Sample.fixed_pitch (lit "Heiligenstadt")) /\
  direction_text Sample.fixed_pitch Sample.fixed_pitch_right 280
    Sample.u4_at_101 = lit "Hei" /\
  (max_dir_width Sample.narrow_ellipsis_right 283 (lit "U4") <
   Sample.narrow_ellipsis (lit "Wien")) /\
  direction_text Sample.narrow_ellipsis Sample.narrow_ellipsis_right 283
    Sample.u4_to_wien = lit "Wie" ++ ellipsis /\
  List.length (lit "Wie" ++ ellipsis) = List.length (lit "Wien").
Proof. repeat split. Qed.

(** C9, amended: a direction wider than the room left for it is drawn in
    one of two ways.  Either as a stem followed by the ellipsis, where the
    stem is the direction without one or more of its last characters, has
    at least three characters, and is the longest such stem for which the
    text fits; the text is then narrower than the original and has no more
    characters.  Or, when no such stem fits, as the first three characters
    of the direction without an ellipsis (all of it when it has at most
    three). *)
Theorem truncated_direction (direction_width : str -> Z)
  (line_bbox_right : Z -> str -> Z) (width : Z) (line : Monitor) :
  max_dir_width line_bbox_right width (name line) <
  direction_width (towards line) ->
  (exists stem dropped,
     towards line = stem ++ dropped /\ dropped <> [] /\
     (3 <= List.length stem)%nat /\
     direction_text direction_width line_bbox_right width line =
     stem ++ ellipsis /\
     direction_width (stem ++ ellipsis) <=
     max_dir_width line_bbox_right width (name line) /\
     direction_width (stem ++ ellipsis) < direction_width (towards line) /\
     (List.length (stem ++ ellipsis) <= List.length (towards line))%nat /\
     (forall stem' dropped',
        towards line = stem' ++ dropped' -> dropped' <> [] ->
        (List.length stem < List.length stem')%nat ->
        max_dir_width line_bbox_right width (name line) <
        direction_width (stem' ++ ellipsis))) \/
  (direction_text direction_width line_bbox_right width line =
   firstn 3 (towards line) /\
   (forall stem dropped,
      towards line = stem ++ dropped -> dropped <> [] ->
      (3 <= List.length stem)%nat ->
      max_dir_width line_bbox_right width (name line) <
      direction_width (stem ++ ellipsis))).
Proof.
  intros Hwide. unfold direction_text.
  destruct (Z.gtb_spec (direction_width (towards line))
              (max_dir_width line_bbox_right width (name line)))
    as [_|Hle]; [|lia].
  destruct (truncate_spec direction_width
              (max_dir_width line_bbox_right width (name line))
              (List.length (towards line)) (towards line) eq_refl)
    as [(stem & dropped & E & Hne & H3 & Hr & Hfit & Hmax)|[Hr Hnone]].
  - left. exists stem, dropped.
    split; [exact E|]. split; [exact Hne|]. split; [exact H3|].
    split; [exact Hr|]. split; [exact Hfit|]. split; [lia|].
    split; [|exact Hmax].
    rewrite E, !length_app. simpl.
    destruct dropped; [now elim Hne|simpl; lia].
  - right. split; assumption.
Qed.

Lemma truncated_direction_witness :
  (max_dir_width Sample.fixed_pitch_right 330 (name Sample.u4_at_101) <
   Sample.fixed_pitch (towards Sample.u4_at_101)) /\
  direction_text Sample.fixed_pitch Sample.fixed_pitch_right 330
    Sample.u4_at_101 = lit "Heilige" ++ ellipsis /\
  ((exists stem dropped,
      towards Sample.u4_at_101 = stem ++ dropped /\ dropped <> [] /\
      (3 <= List.length stem)%nat /\
      direction_text Sample.fixed_pitch Sample.fixed_pitch_right 330
        Sample.u4_at_101 = stem ++ ellipsis /\
      Sample.fixed_pitch (stem ++ ellipsis) <=
      max_dir_width Sample.fixed_pitch_right 330 (name Sample.u4_at_101) /\
      Sample.fixed_pitch (stem ++ ellipsis) <
      Sample.fixed_pitch (towards Sample.u4_at_101) /\
      (List.length (stem ++ ellipsis) <=
       List.length (towards Sample.u4_at_101))%nat /\
      (forall stem' dropped',
         towards Sample.u4_at_101 = stem' ++ dropped' -> dropped' <> [] ->
         (List.length stem < List.length stem')%nat ->
         max_dir_width Sample.fixed_pitch_right 330 (name Sample.u4_at_101) <
         Sample.fixed_pitch (stem' ++ ellipsis))) \/
   (direction_text Sample.fixed_pitch Sample.fixed_pitch_right 330
      Sample.u4_at_101 = firstn 3 (towards Sample.u4_at_101) /\
    (forall stem dropped,
       towards Sample.u4_at_101 = stem ++ dropped -> dropped <> [] ->
       (3 <= List.length stem)%nat ->
       max_dir_width Sample.fixed_pitch_right 330 (name Sample.u4_at_101) <
       Sample.fixed_pitch (stem ++ ellipsis)))).
Proof.
  assert (H : max_dir_width Sample.fixed_pitch_right 330
                (name Sample.u4_at_101) <
              Sample.fixed_pitch (towards Sample.u4_at_101))
    by reflexivity.
  split; [exact H|]. split; [reflexivity|].
  exact (truncated_direction Sample.fixed_pitch Sample.fixed_pitch_right 330
           Sample.u4_at_101 H).
Defined.

End TruncationClaims.

(** * Further properties of the code *)

(** ** The display over its life *)

Section DisplayLife.
Import Display DisplayOps.

Lemma run_length n self : List.length (snd (run n self)) = n.
Proof.
  revert self; induction n as [|n IH]; intros self; simpl; [reflexivity|].
  destruct (update self) as [self' o].
  specialize (IH self'). destruct (run n self') as [self'' cs].
  simpl in *. now rewrite IH.
Qed.

Lemma run_state n self :
  fst (run n self) = with_cycle_count self (_cycle_count self + Z.of_nat n).
Proof.
  revert self; induction n as [|n IH]; intros self.
  - simpl. rewrite Z.add_0_r. destruct self; reflexivity.
  - cbn [run]. pose proof (update_frame self) as Hu.
    destruct (update self) as [self' o]. simpl in Hu.
    specialize (IH self'). destruct (run n self') as [self'' cs].
    simpl in *. rewrite IH, Hu. unfold with_cycle_count; simpl.
    f_equal. lia.
Qed.

(** X1: [n] calls of [update] leave the display with its counter advanced
    by [n] and every other attribute as it was, whatever the calls did:
    the counter also counts the calls that raised. *)
Theorem run_counts_every_call (n : nat) (self : t) :
  fst (run n self) = with_cycle_count self (_cycle_count self + Z.of_nat n) /\
  List.length (snd (run n self)) = n.
Proof. split; [apply run_state|apply run_length]. Qed.

Lemma div_succ (c f : Z) :
  0 < f -> (c + 1) / f = c / f + (if (c + 1) mod f =? 0 then 1 else 0).
Proof.
  intros Hf.
  pose proof (Z.div_mod c f ltac:(lia)) as Hc.
  pose proof (Z.mod_pos_bound c f Hf) as Hr.
  destruct (Z.eq_dec (c mod f + 1) f) as [E|E].
  - assert (Hm : (c + 1) mod f = 0).
    { symmetry. apply (Z.mod_unique_pos _ _ (c / f + 1)); [lia|nia]. }
    rewrite Hm. simpl. symmetry.
    apply (Z.div_unique_pos _ _ _ 0); [lia|nia].
  - assert (Hm : (c + 1) mod f = c mod f + 1).
    { symmetry. apply (Z.mod_unique_pos _ _ (c / f)); [lia|nia]. }
    rewrite Hm. destruct (Z.eqb_spec (c mod f + 1) 0); [lia|].
    rewrite Z.add_0_r. symmetry.
    apply (Z.div_unique_pos _ _ _ (c mod f + 1)); [lia|nia].
Qed.

(** X2: with a positive [full_refresh_every], of the [n] cycles after
    cycle [c] exactly [(c + n) / f - c / f] are full refreshes: one in
    every [f], counted from the start of the process. *)
Theorem full_refresh_count (n : nat) (self : t) :
  0 < _full_refresh_every self ->
  Z.of_nat (full_refreshes (snd (run n self))) =
  (_cycle_count self + Z.of_nat n) / _full_refresh_every self -
  _cycle_count self / _full_refresh_every self.
Proof.
  revert self; induction n as [|n IH]; intros self Hf.
  - simpl. rewrite Z.add_0_r. lia.
  - cbn [run].
    pose proof (update_frame self) as Hu.
    pose proof (update_classification self ltac:(lia)) as Hc.
    destruct (update self) as [self' o]. simpl in Hu, Hc.
    assert (Hf' : 0 < _full_refresh_every self') by (now rewrite Hu).
    specialize (IH self' Hf').
    destruct (run n self') as [self'' cs]. cbn [snd] in IH |- *.
    rewrite Hu in IH. cbn [with_cycle_count _cycle_count _full_refresh_every]
      in IH.
    rewrite (div_succ (_cycle_count self) _ Hf) in IH.
    rewrite Nat2Z.inj_succ, Hc.
    replace (_cycle_count self + Z.succ (Z.of_nat n))
      with (_cycle_count self + 1 + Z.of_nat n) by lia.
    unfold full_refreshes in *. cbn [filter].
    destruct (_ mod _ =? 0); cbn [List.length];
      rewrite ?Nat2Z.inj_succ; lia.
Qed.

Lemma full_refresh_count_witness :
  0 < _full_refresh_every (__init__ Sample.simulated) /\
  Z.of_nat (full_refreshes (snd (run 15 (__init__ Sample.simulated)))) =
  (0 + 15) / 5 - 0 / 5.
Proof.
  split; [reflexivity|].
  exact (full_refresh_count 15 (__init__ Sample.simulated) eq_refl).
Defined.

(** X3: on initialised hardware with a non-zero [full_refresh_every],
    [update] raises nothing and ends by displaying the image, once; it
    clears the panel exactly on a full refresh, and uses the fast
    initialisation exactly on a fast refresh of a driver that has it,
    falling back to the plain one otherwise. *)
Theorem hardware_update (self : t) (epd : Epd) :
  _simulate self = false ->
  _epd self = Some epd ->
  _full_refresh_every self <> 0 ->
  snd (snd (update self)) = None /\
  (exists before,
     fst (snd (update self)) = before ++ [EpdDisplay] /\
     ~ In EpdDisplay before) /\
  (In EpdClear (fst (snd (update self))) <->
   (_cycle_count self + 1) mod _full_refresh_every self = 0) /\
  (In EpdInitFast (fst (snd (update self))) <->
   (_cycle_count self + 1) mod _full_refresh_every self <> 0 /\
   has_init_fast epd = true) /\
  (In EpdInit (fst (snd (update self))) <->
   (_cycle_count self + 1) mod _full_refresh_every self = 0 \/
   has_init_fast epd = false).
Proof.
  intros Hsim Hepd Hfre. unfold update; simpl. rewrite Hsim, Hepd.
  destruct (Z.eqb_spec (_full_refresh_every self) 0) as [|_]; [contradiction|].
  destruct (Z.eqb_spec
              ((_cycle_count self + 1) mod _full_refresh_every self) 0)
    as [E|E]; [|destruct (has_init_fast epd) eqn:Hfast]; simpl;
    (split; [reflexivity|]); split.
  - exists [LogFullRefresh (_cycle_count self + 1);
            EpdInit; EpdClear; EpdInit].
    split; [reflexivity|]. simpl. intuition discriminate.
  - intuition (try discriminate; try congruence).
  - exists [LogFastRefresh (_cycle_count self + 1); EpdInitFast].
    split; [reflexivity|]. simpl. intuition discriminate.
  - intuition (try discriminate; try congruence).
  - exists [LogFastRefresh (_cycle_count self + 1); EpdInit].
    split; [reflexivity|]. simpl. intuition discriminate.
  - intuition (try discriminate; try congruence).
Qed.

(** X4: when the driver module is missing, [init] raises [ImportError]
    and assigns nothing; in that state the cleanup calls [clear] and
    [sleep] do nothing at all, while [update] would advance the counter
    and then raise [AttributeError]. *)
Theorem missing_driver (self : t) :
  _simulate self = false ->
  _epd self = None ->
  init None self = (self, ([LogError], Some ImportError)) /\
  clear self = [] /\
  sleep self = [] /\
  _cycle_count (fst (update self)) = _cycle_count self + 1 /\
  (_full_refresh_every self <> 0 ->
   snd (snd (update self)) = Some AttributeError /\
   forallb (fun e => negb (is_hardware_event e)) (fst (snd (update self))) =
   true).
Proof.
  intros Hsim Hepd. unfold init, clear, sleep. rewrite Hsim, Hepd.
  repeat split; try apply update_cycle_count.
  - unfold update; simpl. rewrite Hsim, Hepd.
    destruct (Z.eqb_spec (_full_refresh_every self) 0); [contradiction|].
    reflexivity.
  - unfold update; simpl. rewrite Hsim, Hepd.
    destruct (Z.eqb_spec (_full_refresh_every self) 0); [contradiction|].
    simpl. destruct (_ mod _ =? 0); reflexivity.
Qed.

Lemma missing_driver_witness :
  _simulate (__init__ Sample.hardware) = false /\
  _epd (__init__ Sample.hardware) = None /\
  clear (__init__ Sample.hardware) = [] /\
  sleep (__init__ Sample.hardware) = [].
Proof.
  destruct (missing_driver (__init__ Sample.hardware) eq_refl eq_refl)
    as (_ & Hc & Hs & _).
  repeat split; assumption.
Defined.

Lemma hardware_update_witness :
  _simulate (fst (init (Some {| has_init_fast := false |})
                    (__init__ Sample.hardware))) = false /\
  _epd (fst (init (Some {| has_init_fast := false |})
               (__init__ Sample.hardware))) =
  Some {| has_init_fast := false |} /\
  snd (snd (update (fst (init (Some {| has_init_fast := false |})
                           (__init__ Sample.hardware))))) = None.
Proof.
  split; [reflexivity|]. split; [reflexivity|].
  exact (proj1 (hardware_update
                  (fst (init (Some {| has_init_fast := false |})
                          (__init__ Sample.hardware)))
                  {| has_init_fast := false |} eq_refl eq_refl
                  ltac:(discriminate))).
Defined.

(** X5: in simulate mode nothing ever reaches the hardware: [init] keeps
    [_epd] unset whatever driver is installed, and after any number of
    frames [update], [clear] and [sleep] make no hardware call. *)
Theorem simulate_never_touches_hardware (self : t) (driver : option Epd)
  (n : nat) :
  _simulate self = true ->
  fst (init driver self) = self /\
  forallb (fun c => negb (is_hardware_call c)) (fst (snd (init driver self))) =
  true /\
  forallb (fun e => negb (is_hardware_event e))
    (fst (snd (update (fst (run n self))))) = true /\
  forallb (fun c => negb (is_hardware_call c)) (clear (fst (run n self))) =
  true /\
  forallb (fun c => negb (is_hardware_call c)) (sleep (fst (run n self))) =
  true.
Proof.
  intros Hsim. unfold init. rewrite Hsim.
  split; [reflexivity|]. split; [reflexivity|].
  rewrite (run_state n self).
  unfold update, clear, sleep; simpl. rewrite Hsim.
  destruct (_full_refresh_every self =? 0); [repeat split|].
  destruct (_ mod _ =? 0); repeat split.
Qed.

Lemma simulate_never_touches_hardware_witness :
  _simulate (__init__ Sample.simulated) = true /\
  fst (init (Some {| has_init_fast := true |}) (__init__ Sample.simulated)) =
  __init__ Sample.simulated.
Proof.
  split; [reflexivity|].
  exact (proj1 (simulate_never_touches_hardware (__init__ Sample.simulated)
                  (Some {| has_init_fast := true |}) 3 eq_refl)).
Defined.

End DisplayLife.

(** ** The frame *)

Section FrameLayout.
Import Api Renderer Layout.
Variable text_width : font -> str -> Z.
Variable line_bbox_right : Z -> str -> Z.
Variable now : str.

Lemma countdown_cells_nth width y j0 deps j :
  nth_error (countdown_cells text_width width y j0 deps) j =
  option_map
    (fun dep =>
       DrawText
         (width - MARGIN_X - COUNTDOWN_COLS * COUNTDOWN_WIDTH +
          (j0 + Z.of_nat j) * COUNTDOWN_WIDTH + COUNTDOWN_WIDTH -
          text_width FONT_COUNTDOWN (countdown_text (countdown dep)))
         y (countdown_text (countdown dep)) FONT_COUNTDOWN)
    (nth_error deps j).
Proof.
  revert j0 j; induction deps as [|dep deps IH]; intros j0 [|j];
    try reflexivity.
  - simpl. now rewrite Z.add_0_r.
  - cbn [countdown_cells nth_error]. rewrite IH.
    destruct (nth_error deps j); [|reflexivity]. simpl.
    do 2 f_equal. lia.
Qed.

Lemma countdown_cells_length width y j0 deps :
  List.length (countdown_cells text_width width y j0 deps) = List.length deps.
Proof.
  revert j0; induction deps as [|dep deps IH]; intros j0; simpl;
    [reflexivity|]. now rewrite IH.
Qed.

(** X6: a row shows the first three departures of the line, in list order,
    and no more; the text of a cell is the minutes in decimal followed by
    an apostrophe, and cell [j] ends exactly at the right edge of its
    column, [50 * (2 - j)] pixels left of the right margin. *)
Theorem countdown_columns (y : Z) (line : Monitor) (width : Z) :
  exists name_text direction cells,
    _draw_line_row text_width line_bbox_right y line width =
    name_text :: direction :: cells /\
    List.length cells = Nat.min 3 (List.length (departures line)) /\
    forall j dep,
      (j < 3)%nat -> nth_error (departures line) j = Some dep ->
      exists x,
        nth_error cells j =
        Some (DrawText x y (countdown_text (countdown dep)) FONT_COUNTDOWN) /\
        x + text_width FONT_COUNTDOWN (countdown_text (countdown dep)) =
        width - MARGIN_X - COUNTDOWN_WIDTH * (2 - Z.of_nat j).
Proof.
  unfold _draw_line_row. cbn [app].
  eexists. eexists. eexists. split; [reflexivity|]. split.
  - rewrite countdown_cells_length, length_firstn. reflexivity.
  - intros j dep Hj Hdep. rewrite countdown_cells_nth.
    change (Z.to_nat COUNTDOWN_COLS) with 3%nat.
    rewrite nth_error_firstn.
    destruct (Nat.ltb_spec j 3) as [_|]; [|lia].
    rewrite Hdep. cbn [option_map]. eexists. split; [reflexivity|].
    unfold MARGIN_X, COUNTDOWN_COLS, COUNTDOWN_WIDTH. ring.
Qed.

Lemma draw_lines_end y ls width :
  snd (draw_lines text_width line_bbox_right y ls width) =
  y + LINE_HEIGHT * Z.of_nat (List.length ls).
Proof.
  revert y; induction ls as [|line ls IH]; intros y.
  - simpl. lia.
  - cbn [draw_lines]. specialize (IH (y + LINE_HEIGHT)).
    destruct (draw_lines text_width line_bbox_right (y + LINE_HEIGHT) ls width)
      as [rows y'].
    cbn [snd List.length] in *. rewrite IH, Nat2Z.inj_succ. lia.
Qed.

Lemma draw_lines_row y ls width j line :
  nth_error ls j = Some line ->
  incl
    (_draw_line_row text_width line_bbox_right
       (y + LINE_HEIGHT * Z.of_nat j) line width)
    (fst (draw_lines text_width line_bbox_right y ls width)).
Proof.
  revert y j; induction ls as [|l ls IH]; intros y [|j] H; try discriminate.
  - simpl in H. inversion H; subst l. cbn [draw_lines].
    destruct (draw_lines text_width line_bbox_right (y + LINE_HEIGHT) ls width)
      as [rows y'].
    cbn [fst]. replace (y + LINE_HEIGHT * Z.of_nat 0) with y by lia.
    apply incl_appl, incl_refl.
  - simpl in H. cbn [draw_lines]. specialize (IH (y + LINE_HEIGHT) j H).
    destruct (draw_lines text_width line_bbox_right (y + LINE_HEIGHT) ls width)
      as [rows y'].
    cbn [fst] in *.
    replace (y + LINE_HEIGHT * Z.of_nat (S j))
      with (y + LINE_HEIGHT + LINE_HEIGHT * Z.of_nat j) by lia.
    apply incl_appr, IH.
Qed.

Lemma draw_stations_at stations_data width :
  forall i y k sv,
    nth_error stations_data k = Some sv ->
    In (DrawText MARGIN_X
          (y + (match i with O => 0 | S _ => SEPARATOR_GAP end) +
           (STATION_HEIGHT + SEPARATOR_GAP) * Z.of_nat k +
           LINE_HEIGHT *
           Z.of_nat (List.length (flat_map lines (firstn k stations_data))))
          (station_header (sv_name sv)) FONT_STATION)
       (fst (draw_stations text_width line_bbox_right i y stations_data width))
    /\
    forall j line,
      nth_error (lines sv) j = Some line ->
      incl
        (_draw_line_row text_width line_bbox_right
           (y + (match i with O => 0 | S _ => SEPARATOR_GAP end) +
            (STATION_HEIGHT + SEPARATOR_GAP) * Z.of_nat k +
            LINE_HEIGHT *
            Z.of_nat (List.length (flat_map lines (firstn k stations_data))) +
            STATION_HEIGHT + LINE_HEIGHT * Z.of_nat j)
           line width)
        (fst (draw_stations text_width line_bbox_right i y stations_data
                width)).
Proof.
  induction stations_data as [|station rest IH]; intros i y k sv Hk;
    [destruct k; discriminate|].
  cbn [draw_stations].
  set (y1 := match i with
             | O => y
             | S _ => y + SEPARATOR_GAP / 2 + SEPARATOR_GAP / 2
             end).
  assert (Hy1 : y1 = y + match i with O => 0 | S _ => SEPARATOR_GAP end).
  { subst y1. destruct i; [lia|].
    change (SEPARATOR_GAP / 2) with 6. unfold SEPARATOR_GAP. lia. }
  pose proof (draw_lines_end (y1 + STATION_HEIGHT) (lines station) width)
    as Hend.
  pose proof (fun j line =>
                draw_lines_row (y1 + STATION_HEIGHT) (lines station) width
                  j line) as Hrow.
  destruct (draw_lines text_width line_bbox_right (y1 + STATION_HEIGHT)
              (lines station) width) as [rows y2].
  cbn [fst snd] in Hend, Hrow.
  specialize (IH (S i) y2).
  destruct (draw_stations text_width line_bbox_right (S i) y2 rest width)
    as [others y3].
  cbn [fst] in *.
  destruct k as [|k].
  - simpl in Hk. inversion Hk; subst sv. simpl firstn. simpl flat_map.
    simpl List.length.
    replace (y + match i with O => 0 | S _ => SEPARATOR_GAP end +
             (STATION_HEIGHT + SEPARATOR_GAP) * Z.of_nat 0 +
             LINE_HEIGHT * Z.of_nat 0) with y1 by lia.
    split.
    + apply in_or_app. right. now left.
    + intros j line Hj. apply incl_appr, incl_tl, incl_appl.
      apply (Hrow j line Hj).
  - simpl in Hk. destruct (IH k sv Hk) as [Hh Hr].
    assert (E :
      y + match i with O => 0 | S _ => SEPARATOR_GAP end +
      (STATION_HEIGHT + SEPARATOR_GAP) * Z.of_nat (S k) +
      LINE_HEIGHT *
      Z.of_nat (List.length (flat_map lines (firstn (S k) (station :: rest))))
      =
      y2 + SEPARATOR_GAP + (STATION_HEIGHT + SEPARATOR_GAP) * Z.of_nat k +
      LINE_HEIGHT * Z.of_nat (List.length (flat_map lines (firstn k rest)))).
    { cbn [firstn flat_map]. rewrite length_app, Hend, Hy1. lia. }
    rewrite E. split.
    + apply in_or_app. right. right. apply in_or_app. right. exact Hh.
    + intros j line Hj. apply incl_appr, incl_tl, incl_appr.
      apply (Hr j line Hj).
Qed.

(** X7: the layout never looks at the height of the canvas.  The header of
    station [k] is drawn 48 pixels below the top margin for every station
    before it and 34 more for every line of those stations, and line [j]
    of the station 36 pixels below the header and 34 more for every line
    before it, however far down that is. *)
Theorem rows_continue_down (stations_data : list StationView)
  (width height : Z) (k : nat) (sv : StationView) :
  nth_error stations_data k = Some sv ->
  In (DrawText MARGIN_X (header_y stations_data k)
        (station_header (sv_name sv)) FONT_STATION)
     (render_departures text_width line_bbox_right now stations_data width
        height) /\
  forall j line,
    nth_error (lines sv) j = Some line ->
    In (DrawText (MARGIN_X + 16)
          (header_y stations_data k + STATION_HEIGHT +
           LINE_HEIGHT * Z.of_nat j)
          (name line) FONT_LINE)
       (render_departures text_width line_bbox_right now stations_data width
          height).
Proof.
  intros Hk. unfold render_departures, header_y.
  destruct (draw_stations_at stations_data width O MARGIN_Y k sv Hk)
    as [Hh Hr].
  destruct (draw_stations text_width line_bbox_right 0 MARGIN_Y stations_data
              width) as [content y].
  cbn [fst] in *. rewrite Z.add_0_r in Hh, Hr. split.
  - apply in_or_app. now left.
  - intros j line Hj. apply in_or_app. left.
    apply (Hr j line Hj). unfold _draw_line_row. now left.
Qed.

Lemma count_app p l l' :
  Frame.count p (l ++ l') = (Frame.count p l + Frame.count p l')%nat.
Proof. unfold Frame.count. now rewrite filter_app, length_app. Qed.

Lemma countdown_cells_count p width y j deps :
  (forall x y' text, p (DrawText x y' text FONT_COUNTDOWN) = false) ->
  Frame.count p (countdown_cells text_width width y j deps) = O.
Proof.
  intros Hp. revert j; induction deps as [|dep deps IH]; intros j;
    [reflexivity|].
  unfold Frame.count in *. cbn [countdown_cells filter].
  rewrite Hp. apply IH.
Qed.

Lemma draw_lines_count y ls width :
  Frame.count Frame.is_separator
    (fst (draw_lines text_width line_bbox_right y ls width)) = O /\
  Frame.count Frame.is_header
    (fst (draw_lines text_width line_bbox_right y ls width)) = O /\
  Frame.count Frame.is_line_name
    (fst (draw_lines text_width line_bbox_right y ls width)) = List.length ls.
Proof.
  revert y; induction ls as [|line ls IH]; intros y; [repeat split|].
  cbn [draw_lines]. specialize (IH (y + LINE_HEIGHT)).
  destruct (draw_lines text_width line_bbox_right (y + LINE_HEIGHT) ls width)
    as [rows y'].
  cbn [fst] in *. destruct IH as (H1 & H2 & H3).
  unfold _draw_line_row. rewrite !count_app, H1, H2, H3.
  rewrite !countdown_cells_count by reflexivity.
  repeat split.
Qed.

Lemma draw_stations_count stations_data width :
  forall i y,
    Frame.count Frame.is_separator
      (fst (draw_stations text_width line_bbox_right i y stations_data width))
    = (match i with
       | O => Nat.pred (List.length stations_data)
       | S _ => List.length stations_data
       end) /\
    Frame.count Frame.is_header
      (fst (draw_stations text_width line_bbox_right i y stations_data width))
    = List.length stations_data /\
    Frame.count Frame.is_line_name
      (fst (draw_stations text_width line_bbox_right i y stations_data width))
    = List.length (flat_map lines stations_data).
Proof.
  induction stations_data as [|station rest IH]; intros i y.
  - destruct i; repeat split.
  - cbn [draw_stations].
    set (y1 := match i with
               | O => y
               | S _ => y + SEPARATOR_GAP / 2 + SEPARATOR_GAP / 2
               end).
    pose proof (draw_lines_count (y1 + STATION_HEIGHT) (lines station) width)
      as (L1 & L2 & L3).
    destruct (draw_lines text_width line_bbox_right (y1 + STATION_HEIGHT)
                (lines station) width) as [rows y2].
    specialize (IH (S i) y2).
    destruct (draw_stations text_width line_bbox_right (S i) y2 rest width)
      as [others y3].
    cbn [fst] in *. destruct IH as (H1 & H2 & H3).
    change (?h :: rows ++ others) with ([h] ++ rows ++ others).
    rewrite !count_app, L1, L2, L3, H1, H2, H3.
    cbn [flat_map]. rewrite length_app.
    destruct i; repeat split; simpl; lia.
Qed.

(** X8: a frame holds one header for every station, one row for every
    line of every station, one separator between consecutive stations and
    none before the first, for every width and height: nothing is left out
    for lack of room. *)
Theorem every_line_is_drawn (stations_data : list StationView)
  (width height : Z) :
  Frame.count Frame.is_header
    (render_departures text_width line_bbox_right now stations_data width
       height) = List.length stations_data /\
  Frame.count Frame.is_line_name
    (render_departures text_width line_bbox_right now stations_data width
       height) = List.length (flat_map lines stations_data) /\
  Frame.count Frame.is_separator
    (render_departures text_width line_bbox_right now stations_data width
       height) = Nat.pred (List.length stations_data).
Proof.
  unfold render_departures.
  pose proof (draw_stations_count stations_data width O MARGIN_Y)
    as (H1 & H2 & H3).
  destruct (draw_stations text_width line_bbox_right 0 MARGIN_Y stations_data
              width) as [content y].
  cbn [fst] in *. rewrite !count_app, H1, H2, H3.
  repeat split; unfold Frame.count; cbn [filter Frame.is_header
    Frame.is_line_name Frame.is_separator List.length]; lia.
Qed.

(** X9: the direction drawn is never longer than the direction of the
    line, keeps its first three characters, and has at least three
    characters unless the direction itself is shorter. *)
Theorem direction_text_bounds (width : Z) (line : Monitor) :
  (List.length
     (direction_text (text_width FONT_DIRECTION) line_bbox_right width line)
   <= List.length (towards line))%nat /\
  (Nat.min 3 (List.length (towards line)) <=
   List.length
     (direction_text (text_width FONT_DIRECTION) line_bbox_right width line))%nat
  /\
  firstn 3
    (direction_text (text_width FONT_DIRECTION) line_bbox_right width line) =
  firstn 3 (towards line).
Proof.
  unfold direction_text.
  destruct (_ >? _); [|repeat split; lia].
  destruct (truncate_spec (text_width FONT_DIRECTION)
              (max_dir_width line_bbox_right width (name line))
              (List.length (towards line)) (towards line) eq_refl)
    as [(stem & dropped & E & Hne & H3 & -> & _)|[-> _]].
  - rewrite E, !length_app.
    destruct dropped as [|c dropped]; [now elim Hne|].
    unfold ellipsis. cbn [List.length].
    split; [lia|]. split; [lia|].
    rewrite !firstn_app.
    replace (3 - List.length stem)%nat with O by lia.
    reflexivity.
  - rewrite length_firstn, firstn_firstn. repeat split; lia.
Qed.

End FrameLayout.

(** ** More on the fetcher *)

Section FetcherEdges.
Import Api Spec.
Variables strip title : str -> str.

(** X10: the application-level code of the payload never changes what is
    extracted: with any hashable server code in the message, the call
    returns what it returns for the same payload without a message. *)
Theorem server_code_is_only_logged (message_items rest : list (str * json))
  (code : json) :
  lookup (lit "serverCode") message_items = Some code ->
  hashable code = true ->
  lookup (lit "message") rest = None ->
  fetch_departures strip title
    (Body (JObj ((lit "message", JObj message_items) :: rest))) =
  fetch_departures strip title (Body (JObj rest)).
Proof.
  intros Hc Hh Hm. unfold fetch_departures, check_message, get.
  cbn [lookup]. change (str_eqb (lit "message") (lit "message")) with true.
  change (str_eqb (lit "data") (lit "message")) with false.
  cbn [bind]. rewrite Hc, Hm, Hh. cbn [bind lookup truthy andb].
  destruct (truthy code && negb (py_eqb code (JNum 200))); reflexivity.
Qed.

(** X11: a server code that is a non-empty list or dict makes the call
    raise [TypeError] before any monitor is read: the lookup in the table
    of error codes needs a hashable key. *)
Theorem unhashable_server_code (items message_items : list (str * json))
  (code : json) :
  lookup (lit "message") items = Some (JObj message_items) ->
  lookup (lit "serverCode") message_items = Some code ->
  truthy code = true ->
  hashable code = false ->
  fetch_departures strip title (Body (JObj items)) = Raise TypeError.
Proof.
  intros Hm Hc Ht Hh. unfold fetch_departures, check_message, get.
  rewrite Hm. cbn [bind]. rewrite Hc. cbn [bind]. rewrite Ht, Hh.
  destruct code; try discriminate; reflexivity.
Qed.

Lemma mapM_raise {A B} (f : A -> result B) before bad after e :
  (forall a, In a before -> exists b, f a = Ok b) ->
  f bad = Raise e ->
  mapM f (before ++ bad :: after) = Raise e.
Proof.
  intros Hb He. induction before as [|a before IH]; simpl.
  - now rewrite He.
  - destruct (Hb a (or_introl eq_refl)) as [b ->]. simpl.
    rewrite IH; [reflexivity|]. intros a' Ha'. apply Hb. now right.
Qed.

(** X12: the call returns all or nothing.  When one monitor entry raises
    and the ones before it do not, the whole call raises that exception,
    whatever the other entries hold. *)
Theorem one_bad_monitor_fails_the_call (data data_value : json)
  (before after : list json) (bad : json) (e : exn) :
  check_message data = Ok tt ->
  get data "data" (JObj []) = Ok data_value ->
  get data_value "monitors" (JArr []) = Ok (JArr (before ++ bad :: after)) ->
  (forall m, In m before -> exists ls, parse_monitor strip title m = Ok ls) ->
  parse_monitor strip title bad = Raise e ->
  fetch_departures strip title (Body data) = Raise e.
Proof.
  intros Hm Hd Hms Hb He. unfold fetch_departures.
  rewrite Hm. cbn [bind]. rewrite Hd. cbn [bind]. rewrite Hms.
  cbn [bind iter]. now rewrite (mapM_raise _ _ _ _ _ Hb He).
Qed.

Lemma somes_countdowns deps :
  map Fetched.countdown (somes (map departure_with_defaults deps)) =
  filter (fun c => negb (is_none c))
    (map
       (fun dep =>
          field "countdown" JNull (field "departureTime" (JObj []) dep))
       deps).
Proof.
  induction deps as [|dep deps IH]; [reflexivity|].
  cbn [map filter]. unfold departure_with_defaults at 1.
  destruct (is_none _); simpl; now rewrite IH.
Qed.

(** X13: the countdowns of a parsed line are the countdown values of its
    departure entries, unchanged and in order, without the missing and the
    null ones; a countdown of zero is kept, and no value is rejected for
    its type or range. *)
Theorem countdowns_pass_through (rbl line_data : json) :
  line_ok line_data = true ->
  exists l,
    parse_line strip title rbl line_data = Ok l /\
    map Fetched.countdown (Fetched.departures l) =
    filter (fun c => negb (is_none c)) (offered_countdowns line_data).
Proof.
  intros Hok. exists (line_with_defaults strip title rbl line_data).
  split; [now apply parse_line_total|].
  unfold line_with_defaults, offered_countdowns. cbn [Fetched.departures].
  apply somes_countdowns.
Qed.

End FetcherEdges.

Section FetcherEdgeWitnesses.
Import Api Spec.

Lemma server_code_is_only_logged_witness :
  lookup (lit "serverCode") Payloads.invalid_stop_message = Some (JNum 316) /\
  hashable (JNum 316) = true /\
  lookup (lit "message") Payloads.karlsplatz_data = None /\
  fetch_departures ascii_strip ascii_title
    (Body (JObj ((lit "message", JObj Payloads.invalid_stop_message)
                 :: Payloads.karlsplatz_data))) =
  fetch_departures ascii_strip ascii_title
    (Body (JObj Payloads.karlsplatz_data)).
Proof.
  split; [reflexivity|]. split; [reflexivity|]. split; [reflexivity|].
  exact (server_code_is_only_logged ascii_strip ascii_title
           Payloads.invalid_stop_message Payloads.karlsplatz_data (JNum 316)
           eq_refl eq_refl eq_refl).
Defined.

Lemma unhashable_server_code_witness :
  lookup (lit "message") (Payloads.list_code ++ Payloads.karlsplatz_data) =
  Some (JObj [(lit "serverCode", JArr [JNum 316])]) /\
  truthy (JArr [JNum 316]) = true /\
  hashable (JArr [JNum 316]) = false /\
  fetch_departures ascii_strip ascii_title
    (Body (JObj (Payloads.list_code ++ Payloads.karlsplatz_data))) =
  Raise TypeError.
Proof.
  split; [reflexivity|]. split; [reflexivity|]. split; [reflexivity|].
  exact (unhashable_server_code ascii_strip ascii_title
           (Payloads.list_code ++ Payloads.karlsplatz_data)
           [(lit "serverCode", JArr [JNum 316])] (JArr [JNum 316])
           eq_refl eq_refl eq_refl eq_refl).
Defined.

Lemma one_bad_monitor_fails_the_call_witness :
  check_message Sample.null_lines_payload = Ok tt /\
  parse_monitor ascii_strip ascii_title
    (Sample.obj [("lines"%string, JNull)]) = Raise TypeError /\
  fetch_departures ascii_strip ascii_title (Body Sample.null_lines_payload) =
  Raise TypeError.
Proof.
  split; [reflexivity|]. split; [reflexivity|].
  refine (one_bad_monitor_fails_the_call ascii_strip ascii_title
            Sample.null_lines_payload _
            [Sample.monitor_payload 100 "U4" "heiligenstadt" 7;
             Sample.monitor_payload 101 "u4" "Heiligenstadt" 2]
            [] (Sample.obj [("lines"%string, JNull)]) TypeError
            eq_refl eq_refl eq_refl _ eq_refl).
  intros m [<-|[<-|[]]]; eexists; reflexivity.
Defined.

Lemma countdowns_pass_through_witness :
  line_ok Payloads.due_line = true /\
  exists l,
    parse_line ascii_strip ascii_title (JNum 100) Payloads.due_line = Ok l /\
    map Fetched.countdown (Fetched.departures l) = [JNum 0; JNum 9].
Proof.
  split; [reflexivity|].
  destruct (countdowns_pass_through ascii_strip ascii_title (JNum 100)
              Payloads.due_line eq_refl) as (l & Hl & Hc).
  exists l. split; [exact Hl|exact Hc].
Defined.

End FetcherEdgeWitnesses.

(** ** More on the aggregator *)

Section AggregatorEffects.
Import Api Spec.
Variable upper : str -> str.

Lemma merge_line_refs seen s line :
  incl (map snd (fst (merge_line upper (seen, s) line)))
    (line :: map snd seen).
Proof.
  unfold merge_line.
  destruct (nth_error s line) as [line_dict|]; [|now apply incl_tl].
  destruct (seen_find _ seen) as [existing|].
  - destruct (nth_error s existing); now apply incl_tl.
  - cbn [fst]. rewrite map_app. intros r Hr. apply in_app_or in Hr.
    destruct Hr as [Hr|[<-|[]]]; [now right|now left].
Qed.

Lemma merge_line_untouched seen s line r :
  ~ In r (map snd seen) ->
  nth_error (snd (merge_line upper (seen, s) line)) r = nth_error s r.
Proof.
  intros Hr. unfold merge_line.
  destruct (nth_error s line) as [line_dict|]; [|reflexivity].
  destruct (seen_find _ seen) as [existing|] eqn:Hf; [|reflexivity].
  destruct (nth_error s existing) as [existing_dict|]; [|reflexivity].
  cbn [snd]. apply nth_error_set_departures_other.
  intros ->. apply Hr. apply seen_find_some in Hf.
  apply (in_map snd) in Hf. exact Hf.
Qed.

Lemma fold_merge_untouched lines :
  forall seen s r,
    ~ In r (map snd seen) -> ~ In r lines ->
    nth_error (snd (fold_left (merge_line upper) lines (seen, s))) r =
    nth_error s r.
Proof.
  induction lines as [|line lines IH]; cbn [fold_left]; intros seen s r Hs Hl;
    [reflexivity|].
  pose proof (merge_line_refs seen s line) as Hrefs.
  pose proof (merge_line_untouched seen s line r Hs) as H1.
  destruct (merge_line upper (seen, s) line) as [seen1 s1].
  cbn [fst snd] in *. rewrite IH, H1; [reflexivity| |].
  - intros Hin. apply Hrefs in Hin. destruct Hin as [<-|Hin].
    + apply Hl. now left.
    + now apply Hs.
  - intros Hin. apply Hl. now right.
Qed.

Lemma group_station_untouched s station r m :
  nth_error s r = Some m ->
  rbl_in (rbl m) (rbls station) = false ->
  nth_error (fst (group_station upper s station)) r = Some m.
Proof.
  intros Hm Hrbl. unfold group_station.
  pose proof (fold_merge_untouched (matching s (rbls station)) [] s r) as H.
  destruct (fold_left _ _ _) as [seen s1]. cbn [fst snd] in *.
  rewrite H; [exact Hm|now intros []|].
  intros Hin. apply in_matching in Hin. destruct Hin as (m' & Hm' & Hr).
  congruence.
Qed.

Lemma group_refs_erase stations s :
  map erase (fst (group_refs upper s stations)) = map erase s.
Proof.
  destruct (group_refs upper s stations) as [s' views] eqn:H.
  now destruct (group_refs_spec upper _ _ _ _ H).
Qed.

(** X14: [group_by_station] changes the dicts it is given, within limits.
    After the call the list has the same length and every dict its stop
    number, name and direction; and a dict at a stop of no configured
    station is exactly as it was, departures included. *)
Theorem input_after_grouping (monitors : list Monitor)
  (stations : list Station) :
  map erase (fst (group_refs upper monitors stations)) = map erase monitors /\
  List.length (fst (group_refs upper monitors stations)) =
  List.length monitors /\
  forall r m,
    nth_error monitors r = Some m ->
    (forall station, In station stations ->
       rbl_in (rbl m) (rbls station) = false) ->
    nth_error (fst (group_refs upper monitors stations)) r = Some m.
Proof.
  split; [apply group_refs_erase|]. split.
  - pose proof (f_equal (@List.length Monitor)
                  (group_refs_erase stations monitors)) as H.
    now rewrite !length_map in H.
  - revert monitors; induction stations as [|station rest IH];
      intros monitors r m Hm Hno; [exact Hm|].
    cbn [group_refs].
    pose proof (group_station_untouched monitors station r m Hm
                  (Hno station (or_introl eq_refl))) as H1.
    destruct (group_station upper monitors station) as [s1 v].
    cbn [fst] in H1. specialize (IH s1 r m H1).
    destruct (group_refs upper s1 rest) as [s2 vs]. cbn [fst] in *.
    apply IH. intros st Hst. apply Hno. now right.
Qed.

Lemma deref_app s l1 l2 : deref s (l1 ++ l2) = deref s l1 ++ deref s l2.
Proof. apply flat_map_app. Qed.

Lemma deref_set_other s e deps refs :
  ~ In e refs -> deref (set_departures s e deps) refs = deref s refs.
Proof.
  induction refs as [|r refs IH]; intros He; [reflexivity|].
  unfold deref in *. cbn [flat_map].
  rewrite nth_error_set_departures_other.
  - rewrite IH; [reflexivity|]. intros H. apply He. now right.
  - intros ->. apply He. now left.
Qed.

Lemma deref_one s r m : nth_error s r = Some m -> deref s [r] = [m].
Proof. intros H. unfold deref. cbn [flat_map]. now rewrite H. Qed.

Lemma deref_cons s r m refs :
  nth_error s r = Some m -> deref s (r :: refs) = m :: deref s refs.
Proof. intros H. unfold deref. cbn [flat_map]. now rewrite H. Qed.

Lemma deref_set_perm s e em deps refs :
  NoDup refs -> In e refs -> nth_error s e = Some em ->
  Permutation
    (departures em ++
     flat_map departures (deref (set_departures s e deps) refs))
    (deps ++ flat_map departures (deref s refs)).
Proof.
  intros Hnd Hin He.
  apply in_split in Hin. destruct Hin as (l1 & l2 & ->).
  apply NoDup_remove in Hnd. destruct Hnd as [_ Hnin].
  assert (H1 : ~ In e l1) by (intros H; apply Hnin, in_or_app; now left).
  assert (H2 : ~ In e l2) by (intros H; apply Hnin, in_or_app; now right).
  assert (He' : nth_error (set_departures s e deps) e =
                Some (with_departures em deps))
    by (now rewrite nth_error_set_departures_same, He).
  rewrite !deref_app, (deref_cons _ _ _ _ He), (deref_cons _ _ _ _ He').
  rewrite (deref_set_other _ _ _ _ H1), (deref_set_other _ _ _ _ H2).
  rewrite !flat_map_app. cbn [flat_map with_departures departures].
  set (F1 := flat_map departures (deref s l1)).
  set (F2 := flat_map departures (deref s l2)).
  rewrite (Permutation_app_comm F1 (deps ++ F2)).
  rewrite (Permutation_app_comm F1 (departures em ++ F2)).
  rewrite <- !app_assoc.
  rewrite (app_assoc (departures em) deps).
  rewrite (Permutation_app_comm (departures em) deps).
  now rewrite <- app_assoc.
Qed.

(** While a station's lines go through the loop, the departures held by
    the dicts in [seen] are those of the lines already processed. *)
Lemma NoDup_app_not_in {A} (l l' : list A) x :
  NoDup (l ++ l') -> In x l -> ~ In x l'.
Proof.
  induction l as [|a l IH]; simpl; intros Hnd Hin; [elim Hin|].
  inversion Hnd as [|? ? Ha Hnd']; subst.
  destruct Hin as [->|Hin]; [|now apply IH].
  intros H. apply Ha, in_or_app. now right.
Qed.

Lemma fold_merge_conserves todo :
  forall processed seen s,
    NoDup (processed ++ todo) ->
    incl (map snd seen) processed ->
    NoDup (map snd seen) ->
    (forall r, In r (processed ++ todo) -> (r < List.length s)%nat) ->
    Permutation
      (flat_map departures
         (deref (snd (fold_left (merge_line upper) todo (seen, s)))
            (map snd (fst (fold_left (merge_line upper) todo (seen, s))))))
      (flat_map departures (deref s (map snd seen)) ++
       flat_map departures (deref s todo)).
Proof.
  induction todo as [|line todo IH]; cbn [fold_left];
    intros processed seen s Hnd Hincl Hnds Hvalid.
  - cbn. now rewrite app_nil_r.
  - assert (Hline : ~ In line (map snd seen)).
    { intros H. apply Hincl in H.
      apply (NoDup_app_not_in _ _ _ Hnd H). now left. }
    assert (Hnd' : NoDup ((processed ++ [line]) ++ todo))
      by now rewrite <- app_assoc.
    destruct (nth_error s line) as [line_dict|] eqn:Hl.
    2:{ apply nth_error_None in Hl.
        specialize (Hvalid line ltac:(apply in_or_app; right; now left)).
        lia. }
    rewrite (deref_cons _ _ _ _ Hl). cbn [flat_map].
    destruct (merge_line upper (seen, s) line) as [seen1 s1] eqn:Hstep.
    unfold merge_line in Hstep. rewrite Hl in Hstep.
    destruct (seen_find (key_of upper line_dict) seen) as [existing|] eqn:Hf.
    + apply seen_find_some in Hf. apply (in_map snd) in Hf. cbn [snd] in Hf.
      destruct (nth_error s existing) as [existing_dict|] eqn:He.
      2:{ apply nth_error_None in He.
          specialize (Hvalid existing
                        ltac:(apply in_or_app; left; now apply Hincl)).
          lia. }
      inversion Hstep; subst seen1 s1; clear Hstep.
      set (merged := sort_departures
                       (departures existing_dict ++ departures line_dict)).
      assert (Hex : ~ In existing (line :: todo))
        by (apply (NoDup_app_not_in _ _ _ Hnd); now apply Hincl).
      eapply Permutation_trans.
      { apply (IH (processed ++ [line]) seen
                 (set_departures s existing merged) Hnd').
        - intros r Hr. apply in_or_app. left. now apply Hincl.
        - exact Hnds.
        - intros r Hr. rewrite <- app_assoc in Hr.
          pose proof (f_equal (@List.length Monitor)
                        (erase_set_departures s existing merged)) as Hlen.
          rewrite !length_map in Hlen. rewrite Hlen. now apply Hvalid. }
      rewrite (deref_set_other _ _ _ todo).
      2:{ intros H. apply Hex. now right. }
      apply (Permutation_app_inv_l (departures existing_dict)).
      rewrite !app_assoc.
      rewrite (deref_set_perm s existing existing_dict merged
                 (map snd seen) Hnds Hf He).
      unfold merged. rewrite <- sort_departures_perm.
      rewrite <- !app_assoc. apply Permutation_app_head.
      rewrite !app_assoc. apply Permutation_app_tail.
      apply Permutation_app_comm.
    + inversion Hstep; subst seen1 s1; clear Hstep.
      eapply Permutation_trans.
      { apply (IH (processed ++ [line])
                 (seen ++ [(key_of upper line_dict, line)]) s Hnd').
        - rewrite map_app. cbn [map snd]. intros r Hr.
          apply in_app_or in Hr. apply in_or_app.
          destruct Hr as [Hr|Hr]; [left; now apply Hincl|now right].
        - rewrite map_app. cbn [map snd].
          apply (Permutation_NoDup (l := line :: map snd seen));
            [apply Permutation_cons_append|].
          now constructor.
        - intros r Hr. rewrite <- app_assoc in Hr. now apply Hvalid. }
      rewrite map_app, deref_app, flat_map_app. cbn [map snd].
      rewrite (deref_one _ _ _ Hl). cbn [flat_map].
      rewrite app_nil_r. now rewrite <- !app_assoc.
Qed.

Lemma deref_matching (f : Monitor -> bool) pre s :
  deref (pre ++ s)
    (filter
       (fun r =>
          match nth_error (pre ++ s) r with
          | Some m => f m
          | None => false
          end)
       (seq (List.length pre) (List.length s))) =
  filter f s.
Proof.
  revert pre; induction s as [|m s IH]; intros pre; [reflexivity|].
  cbn [List.length seq filter].
  rewrite nth_error_app2, Nat.sub_diag by lia. cbn [nth_error].
  specialize (IH (pre ++ [m])).
  rewrite <- app_assoc, length_app, Nat.add_1_r in IH. cbn [app] in IH.
  destruct (f m).
  - rewrite (deref_cons _ _ m); [now rewrite IH|].
    rewrite nth_error_app2, Nat.sub_diag by lia. reflexivity.
  - exact IH.
Qed.

(** X15: for a single station no departure is lost and none is invented:
    the departures of the lines of its entry are, up to order, those of
    all monitors at its stops, each as many times as it was given. *)
Theorem departures_are_conserved (monitors : list Monitor)
  (station : Station) :
  exists sv,
    group_by_station upper monitors [station] = [sv] /\
    sv_name sv = station_name station /\
    Permutation (flat_map departures (lines sv))
      (flat_map departures
         (filter (fun m => rbl_in (rbl m) (rbls station)) monitors)).
Proof.
  unfold group_by_station, group_refs, group_station.
  assert (Hnd : NoDup ([] ++ matching monitors (rbls station))).
  { cbn [app]. unfold matching. apply NoDup_filter, seq_NoDup. }
  pose proof (fold_merge_conserves (matching monitors (rbls station))
                [] [] monitors Hnd (incl_refl _) (NoDup_nil _)) as H.
  revert H.
  destruct (fold_left _ _ _) as [seen s1].
  intros H. cbn [fst snd] in H. eexists. split; [reflexivity|].
  split; [reflexivity|]. cbn [lines resolve view_lines map].
  unfold deref at 1.
  rewrite <- (sort_by_perm pair_ltb (sort_key s1) (map snd seen)).
  fold (deref s1 (map snd seen)). rewrite H.
  - pose proof (deref_matching
                  (fun m => rbl_in (rbl m) (rbls station)) [] monitors) as Hd.
    cbn [app List.length] in Hd.
    change (deref monitors (map snd [])) with (@nil Monitor).
    cbn [flat_map app]. unfold matching. now rewrite Hd.
  - intros r Hr. cbn [app] in Hr. apply in_matching in Hr.
    destruct Hr as (m & Hm & _). apply nth_error_Some. congruence.
Qed.

End AggregatorEffects.

Section AggregatorEffectWitnesses.
Import Api Spec.

Lemma group_keeps_ascending_witness :
  Forall (fun m => ascending (departures m))
    [Sample.u4_at_100; Sample.u4_at_101] /\
  Forall
    (fun sv => Forall (fun l => ascending (departures l)) (lines sv))
    (group_by_station ascii_upper [Sample.u4_at_100; Sample.u4_at_101]
       [Sample.karlsplatz]).
Proof.
  assert (H : Forall (fun m => ascending (departures m))
                [Sample.u4_at_100; Sample.u4_at_101])
    by (repeat constructor).
  split; [exact H|].
  exact (group_keeps_ascending ascii_upper _ [Sample.karlsplatz] H).
Defined.

Lemma to_upper_title b s :
  map to_upper (title_from b s) = map to_upper s.
Proof.
  revert b; induction s as [|c s IH]; intros b; [reflexivity|].
  cbn [title_from].
  assert (Hl : is_lower c = true -> to_upper (to_upper c) = to_upper c).
  { unfold to_upper, is_lower. intros H. rewrite H.
    apply andb_true_iff in H. destruct H as [H1 H2].
    apply N.leb_le in H1, H2.
    destruct (N.leb_spec 97 (c - 32)); [lia|reflexivity]. }
  assert (Hu : is_lower c = false -> is_upper c = true ->
               to_upper (to_lower c) = to_upper c).
  { unfold to_upper, to_lower, is_lower, is_upper. intros Hlow H.
    rewrite H, Hlow.
    apply andb_true_iff in H. destruct H as [H1 H2].
    apply N.leb_le in H1, H2.
    destruct (N.leb_spec 97 (c + 32)); [|lia].
    destruct (N.leb_spec (c + 32) 122); [|lia].
    simpl. lia. }
  destruct (is_lower c) eqn:El.
  - cbn [map]. rewrite IH. destruct b; [reflexivity|].
    now rewrite Hl.
  - destruct (is_upper c) eqn:Eu; cbn [map]; rewrite IH; [|reflexivity].
    destruct b; [|reflexivity]. now rewrite Hu.
Qed.

(** X17: on ASCII text the title case the fetcher gives a direction does
    not change the key under which the aggregator merges the record, so
    directions that differ only in the case of their letters still merge
    after fetching. *)
Theorem title_case_keeps_merge_key (m : Monitor) :
  key_of ascii_upper (Casing.retitled m) = key_of ascii_upper m.
Proof.
  unfold key_of, Casing.retitled, ascii_upper, ascii_title.
  cbn [name towards]. now rewrite to_upper_title.
Qed.

End AggregatorEffectWitnesses.

Section FrameWitnesses.
Import Api Renderer Layout.

Lemma rows_continue_down_witness :
  nth_error Frame.two_stations 1 =
  Some {| sv_name := lit "Pilgramgasse"; lines := [Sample.u4_at_101] |} /\
  In (DrawText 20 131 (station_header (lit "Pilgramgasse")) FONT_STATION)
    (render_departures Frame.fixed_pitch_font Sample.fixed_pitch_right
       (lit "Aktualisiert 12:00:00") Frame.two_stations 800 100).
Proof.
  split; [reflexivity|].
  exact (proj1 (rows_continue_down Frame.fixed_pitch_font
                  Sample.fixed_pitch_right (lit "Aktualisiert 12:00:00")
                  Frame.two_stations 800 100 1 _ eq_refl)).
Defined.

End FrameWitnesses.

(** ** Stations without a stop in common *)

Section Independence.
Import Api Spec.
Variable upper : str -> str.

Lemma rbl_in_In r station_rbls :
  rbl_in r station_rbls = true <-> exists n, r = Some n /\ In n station_rbls.
Proof.
  destruct r as [n|]; simpl.
  - rewrite existsb_exists. split.
    + intros (x & Hx & E). apply Z.eqb_eq in E. subst x. now exists n.
    + intros (x & E & Hx). inversion E; subst x. exists n.
      split; [exact Hx|apply Z.eqb_refl].
  - split; [discriminate|intros (n & E & _); discriminate].
Qed.

Lemma matching_erase s t station_rbls :
  map erase s = map erase t ->
  matching s station_rbls = matching t station_rbls.
Proof.
  intros E. unfold matching.
  pose proof (f_equal (@List.length Monitor) E) as Hlen.
  rewrite !length_map in Hlen. rewrite Hlen.
  apply filter_ext. intros r.
  destruct (nth_error t r) as [m|] eqn:Hm.
  - destruct (erase_nth_error _ _ _ _ E Hm) as (m' & -> & Em).
    now rewrite (erase_rbl _ _ Em).
  - destruct (nth_error s r) as [m'|] eqn:Hm'; [|reflexivity].
    destruct (erase_nth_error _ _ _ _ (eq_sym E) Hm') as (m0 & H0 & _).
    congruence.
Qed.

Lemma insert_ext {A K} (ltb : K -> K -> bool) (key key' : A -> K) x l :
  (forall a, key a = key' a) -> insert ltb key x l = insert ltb key' x l.
Proof.
  intros E. induction l as [|y l IH]; [reflexivity|].
  cbn [insert]. now rewrite !E, IH.
Qed.

Lemma sort_by_ext {A K} (ltb : K -> K -> bool) (key key' : A -> K) l :
  (forall a, key a = key' a) -> sort_by ltb key l = sort_by ltb key' l.
Proof.
  intros E. induction l as [|x l IH]; [reflexivity|].
  unfold sort_by in *. cbn [fold_right]. rewrite IH. now apply insert_ext.
Qed.

Lemma deref_ext s t refs :
  (forall r, In r refs -> nth_error s r = nth_error t r) ->
  deref s refs = deref t refs.
Proof.
  induction refs as [|r refs IH]; intros H; [reflexivity|].
  unfold deref in *. cbn [flat_map].
  rewrite (H r (or_introl eq_refl)), IH; [reflexivity|].
  intros r' Hr'. apply H. now right.
Qed.

(** One pass of the merge on two stores that agree on a set [P] of dicts
    holding the line and all of [seen]. *)
Lemma merge_line_lockstep (P : ref -> Prop) seen s t line :
  map erase s = map erase t ->
  (forall r, P r -> nth_error s r = nth_error t r) ->
  P line ->
  (forall r, In r (map snd seen) -> P r) ->
  fst (merge_line upper (seen, s) line) =
  fst (merge_line upper (seen, t) line) /\
  map erase (snd (merge_line upper (seen, s) line)) =
  map erase (snd (merge_line upper (seen, t) line)) /\
  (forall r, P r ->
     nth_error (snd (merge_line upper (seen, s) line)) r =
     nth_error (snd (merge_line upper (seen, t) line)) r) /\
  (forall r, In r (map snd (fst (merge_line upper (seen, s) line))) -> P r).
Proof.
  intros E Hag Hline Hseen.
  assert (Hrefs : forall r,
    In r (map snd (fst (merge_line upper (seen, s) line))) -> P r).
  { intros r Hr. apply merge_line_refs in Hr.
    destruct Hr as [<-|Hr]; [exact Hline|now apply Hseen]. }
  split; [|split; [|split; [|exact Hrefs]]].
  - unfold merge_line. rewrite <- (Hag line Hline).
    destruct (nth_error s line) as [line_dict|]; [|reflexivity].
    destruct (seen_find _ seen) as [existing|] eqn:Hf; [|reflexivity].
    apply seen_find_some in Hf. apply (in_map snd) in Hf.
    rewrite <- (Hag existing (Hseen _ Hf)).
    destruct (nth_error s existing); reflexivity.
  - now rewrite !merge_line_erase.
  - intros r Hr. unfold merge_line. rewrite <- (Hag line Hline).
    destruct (nth_error s line) as [line_dict|]; [|now apply Hag].
    destruct (seen_find _ seen) as [existing|] eqn:Hf; [|now apply Hag].
    apply seen_find_some in Hf. apply (in_map snd) in Hf.
    rewrite <- (Hag existing (Hseen _ Hf)).
    destruct (nth_error s existing) as [existing_dict|] eqn:He;
      [|now apply Hag].
    cbn [snd]. destruct (Nat.eq_dec r existing) as [->|Hne].
    + rewrite !nth_error_set_departures_same.
      now rewrite <- (Hag existing (Hseen _ Hf)).
    + rewrite !nth_error_set_departures_other by exact Hne. now apply Hag.
Qed.

Lemma fold_lockstep (P : ref -> Prop) lines :
  forall seen s t,
    map erase s = map erase t ->
    (forall r, P r -> nth_error s r = nth_error t r) ->
    (forall r, In r lines -> P r) ->
    (forall r, In r (map snd seen) -> P r) ->
    fst (fold_left (merge_line upper) lines (seen, s)) =
    fst (fold_left (merge_line upper) lines (seen, t)) /\
    (forall r, P r ->
       nth_error (snd (fold_left (merge_line upper) lines (seen, s))) r =
       nth_error (snd (fold_left (merge_line upper) lines (seen, t))) r).
Proof.
  induction lines as [|line lines IH]; cbn [fold_left];
    intros seen s t E Hag Hlines Hseen.
  - split; [reflexivity|exact Hag].
  - destruct (merge_line_lockstep P seen s t line E Hag
                (Hlines line (or_introl eq_refl)) Hseen)
      as (H1 & H2 & H3 & H4).
    destruct (merge_line upper (seen, s) line) as [seen1 s1].
    destruct (merge_line upper (seen, t) line) as [seen2 t1].
    cbn [fst snd] in *. subst seen2.
    apply IH; auto. intros r Hr. apply Hlines. now right.
Qed.

Lemma fold_merge_erase lines :
  forall seen s,
    map erase (snd (fold_left (merge_line upper) lines (seen, s))) =
    map erase s.
Proof.
  induction lines as [|line lines IH]; cbn [fold_left]; intros seen s;
    [reflexivity|].
  pose proof (merge_line_erase upper seen s line) as H.
  destruct (merge_line upper (seen, s) line) as [seen1 s1].
  cbn [snd] in H. now rewrite IH.
Qed.

Lemma group_station_eq s station :
  group_station upper s station =
  (snd (fold_left (merge_line upper) (matching s (rbls station)) ([], s)),
   {| view_name := station_name station;
      view_lines :=
        sort_by pair_ltb
          (sort_key
             (snd (fold_left (merge_line upper) (matching s (rbls station))
                     ([], s))))
          (map snd
             (fst (fold_left (merge_line upper) (matching s (rbls station))
                     ([], s)))) |}).
Proof.
  unfold group_station. now destruct (fold_left _ _ _).
Qed.

Lemma group_station_lockstep s t station :
  map erase s = map erase t ->
  (forall r, In r (matching t (rbls station)) ->
     nth_error s r = nth_error t r) ->
  snd (group_station upper s station) = snd (group_station upper t station) /\
  (forall r, In r (matching t (rbls station)) ->
     nth_error (fst (group_station upper s station)) r =
     nth_error (fst (group_station upper t station)) r).
Proof.
  intros E Hag. rewrite !group_station_eq. cbn [fst snd].
  rewrite (matching_erase s t _ E).
  destruct (fold_lockstep (fun r => In r (matching t (rbls station)))
              (matching t (rbls station)) [] s t E Hag
              (fun r H => H) (fun r (H : In r []) => match H with end))
    as [H1 H2].
  split; [|exact H2].
  f_equal.
  assert (Hk : forall r,
    sort_key
      (snd (fold_left (merge_line upper) (matching t (rbls station)) ([], s)))
      r =
    sort_key
      (snd (fold_left (merge_line upper) (matching t (rbls station)) ([], t)))
      r).
  { intros r. apply sort_key_erase.
    rewrite (fold_merge_erase _ [] s), (fold_merge_erase _ [] t). exact E. }
  etransitivity; [exact (sort_by_ext pair_ltb _ _ _ Hk)|].
  apply f_equal. apply f_equal. exact H1.
Qed.

Lemma group_station_frame s station r :
  ~ In r (matching s (rbls station)) ->
  nth_error (fst (group_station upper s station)) r = nth_error s r.
Proof.
  intros Hr. unfold group_station.
  pose proof (fold_merge_untouched upper (matching s (rbls station)) [] s r)
    as H.
  destruct (fold_left _ _ _) as [seen s1]. cbn [fst snd] in *.
  apply H; [now intros []|exact Hr].
Qed.

Lemma group_station_erase s station :
  map erase (fst (group_station upper s station)) = map erase s.
Proof.
  destruct (group_station upper s station) as [s1 v] eqn:H.
  now destruct (group_station_spec upper _ _ _ _ H).
Qed.

Lemma no_common_stop_matching s a b r :
  Network.no_common_stop a b ->
  In r (matching s (rbls a)) -> ~ In r (matching s (rbls b)).
Proof.
  intros Hab Ha Hb. apply in_matching in Ha, Hb.
  destruct Ha as (m & Hm & Hra). destruct Hb as (m' & Hm' & Hrb).
  assert (m' = m) by congruence. subst m'.
  apply rbl_in_In in Hra, Hrb.
  destruct Hra as (n & En & Hna). destruct Hrb as (n' & En' & Hnb).
  assert (n' = n) by congruence. subst n'.
  exact (Hab n Hna Hnb).
Qed.

Lemma group_refs_independent monitors stations :
  ForallOrdPairs Network.no_common_stop stations ->
  forall s,
    map erase s = map erase monitors ->
    (forall station r, In station stations ->
       In r (matching monitors (rbls station)) ->
       nth_error s r = nth_error monitors r) ->
    map (resolve (fst (group_refs upper s stations)))
      (snd (group_refs upper s stations)) =
    map
      (fun station =>
         resolve (fst (group_station upper monitors station))
           (snd (group_station upper monitors station)))
      stations /\
    (forall r,
       (forall station, In station stations ->
          ~ In r (matching monitors (rbls station))) ->
       nth_error (fst (group_refs upper s stations)) r = nth_error s r).
Proof.
  induction 1 as [|station rest Hhead Hrest IH]; intros s E Hag.
  - split; [reflexivity|]. intros r _. reflexivity.
  - cbn [group_refs].
    destruct (group_station_lockstep s monitors station E
                (fun r Hr => Hag station r (or_introl eq_refl) Hr))
      as [Hview Hstore].
    pose proof (group_station_erase s station) as E1.
    pose proof (group_station_frame s station) as Hframe.
    pose proof (group_station_spec upper s station) as Hspec.
    destruct (group_station upper s station) as [s1 v].
    cbn [fst snd] in *.
    destruct (Hspec s1 v eq_refl) as (_ & _ & Hvalid & _).
    assert (Hag1 : forall st r, In st rest ->
              In r (matching monitors (rbls st)) ->
              nth_error s1 r = nth_error monitors r).
    { intros st r Hst Hr. rewrite Hframe.
      - apply (Hag st r); [now right|exact Hr].
      - rewrite (matching_erase s monitors _ E). intros Hr'.
        rewrite Forall_forall in Hhead.
        exact (no_common_stop_matching monitors station st r
                 (Hhead st Hst) Hr' Hr). }
    destruct (IH s1 ltac:(congruence) Hag1) as [Hviews Hrestframe].
    destruct (group_refs upper s1 rest) as [s2 vs].
    cbn [fst snd map] in *. split.
    + f_equal; [|exact Hviews].
      rewrite <- Hview. unfold resolve. f_equal.
      apply deref_ext. intros r Hr.
      destruct (Hvalid r Hr) as (m & Hm & Hrbl).
      assert (Hin : In r (matching monitors (rbls station))).
      { rewrite <- (matching_erase s1 monitors _ ltac:(congruence)).
        apply in_matching. now exists m. }
      rewrite Hrestframe.
      * now apply Hstore.
      * intros st Hst Hr'. rewrite Forall_forall in Hhead.
        exact (no_common_stop_matching monitors station st r
                 (Hhead st Hst) Hin Hr').
    + intros r Hr. rewrite Hrestframe.
      * apply Hframe. rewrite (matching_erase s monitors _ E).
        apply Hr. now left.
      * intros st Hst. apply Hr. now right.
Qed.

(** X18: stations without a stop in common are grouped independently: the
    result for the whole configuration is, entry by entry, the result of
    grouping the same monitors for each station alone. *)
Theorem disjoint_stations_are_independent (monitors : list Monitor)
  (stations : list Station) :
  ForallOrdPairs Network.no_common_stop stations ->
  group_by_station upper monitors stations =
  flat_map (fun station => group_by_station upper monitors [station])
    stations.
Proof.
  intros Hdis.
  destruct (group_refs_independent monitors stations Hdis monitors eq_refl
              (fun _ _ _ _ => eq_refl)) as [H _].
  unfold group_by_station at 1.
  destruct (group_refs upper monitors stations) as [s views].
  cbn [fst snd] in H. rewrite H.
  clear. induction stations as [|station rest IH]; [reflexivity|].
  cbn [map flat_map]. rewrite IH. unfold group_by_station at 2.
  cbn [group_refs].
  destruct (group_station upper monitors station) as [s1 v]. reflexivity.
Qed.

End Independence.

Section IndependenceWitness.
Import Api Spec.

Lemma disjoint_stations_are_independent_witness :
  ForallOrdPairs Network.no_common_stop
    [Sample.karlsplatz; Network.pilgramgasse] /\
  group_by_station ascii_upper
    [Sample.u4_at_100; Network.u4_at_200; Sample.u4_at_101]
    [Sample.karlsplatz; Network.pilgramgasse] =
  group_by_station ascii_upper
    [Sample.u4_at_100; Network.u4_at_200; Sample.u4_at_101]
    [Sample.karlsplatz] ++
  group_by_station ascii_upper
    [Sample.u4_at_100; Network.u4_at_200; Sample.u4_at_101]
    [Network.pilgramgasse] ++ [].
Proof.
  assert (H : ForallOrdPairs Network.no_common_stop
                [Sample.karlsplatz; Network.pilgramgasse]).
  { repeat constructor. intros stop Ha Hb. simpl in Ha, Hb.
    destruct Ha as [<-|[<-|[]]];
      destruct Hb as [Hb|[Hb|[]]]; discriminate. }
  split; [exact H|].
  exact (disjoint_stations_are_independent ascii_upper
           [Sample.u4_at_100; Network.u4_at_200; Sample.u4_at_101]
           [Sample.karlsplatz; Network.pilgramgasse] H).
Defined.

End IndependenceWitness.
